(** * tunnrl: a shallow embedding of the tunnel client

  The development follows [src/api.ts], which holds two programs: the
  library entry point [tunnrl] (first half) and the command line client
  [startTunnel] (second half).  Both carry their own copy of
  [forwardToLocal].

  Conventions of the embedding:
  - A JavaScript string is the Rocq [string] of its code units, so the
    strings of the model are the JavaScript strings whose code units lie
    below 256.  [toLowerCase], [toUpperCase] and [Buffer.from(text)] are
    modelled on ASCII text, where they agree with JavaScript; the
    properties of the forwarder that apply them to the fields of a
    request carry an ASCII hypothesis.
  - A JavaScript object used as a dictionary (the header records) is a
    [gmap string _] of its own string-keyed properties.  An assignment
    [obj[key] = val] to the key [__proto__] of a plain object creates no
    own property, and the model of the loop that performs one says so.
  - A [Buffer] is a [list byte].
  - Integer-valued JavaScript numbers (ports, status codes, the reconnect
    delay, lengths) are [Z].  The jitter [Math.random() * 500] and the
    sum it enters are binary64 values: a rational, with every product
    and sum rounded to the nearest binary64 value ([Js.fl]).
  - Callbacks registered on sockets, requests and timers become the cases
    of a step function over the events the environment can deliver.
  - What Node does inside a call of the source ([transport.request],
    [localReq.write], [localReq.end]) is an input of the model: the call
    returns or throws, as Node decides. *)

From Stdlib Require Import ZArith QArith Qminmax Qround Lia Lqa String Ascii List.
From Stdlib.Strings Require Import Byte.
From stdpp Require Import gmap strings list pretty.

Open Scope Z_scope.

(* ================================================================== *)
(** * JavaScript primitives used by the source *)
(* ================================================================== *)

Module Js.

(** [s.startsWith(p)] *)
Definition startsWith (s p : string) : bool := String.prefix p s.

(** One character of [String.prototype.toLowerCase] on ASCII text: the
    letters [A]..[Z] change, every other ASCII character stays. *)
Definition lower_ascii (c : ascii) : ascii :=
  let n := nat_of_ascii c in
  if ((65 <=? n) && (n <=? 90))%nat then ascii_of_nat (n + 32) else c.

(** [s.toLowerCase()], for [s] of ASCII characters. *)
Fixpoint toLowerCase (s : string) : string :=
  match s with
  | EmptyString => EmptyString
  | String c rest => String (lower_ascii c) (toLowerCase rest)
  end.

(** [arr.includes(x)] on an array of strings *)
Definition includes (arr : list string) (x : string) : bool :=
  existsb (String.eqb x) arr.

(** [arr.push(x)] and [arr.shift()], as the array they leave behind. *)
Definition push {A} (arr : list A) (x : A) : list A := arr ++ [x].
Definition shift {A} (arr : list A) : list A := tail arr.

(** A promise settles once: [resolve] and [reject] on a settled promise
    do nothing. *)
Inductive promise (A E : Type) : Type :=
| Pending
| Fulfilled (value : A)
| Rejected (reason : E).
Arguments Pending {A E}.
Arguments Fulfilled {A E} value.
Arguments Rejected {A E} reason.

Definition resolve {A E} (value : A) (p : promise A E) : promise A E :=
  match p with Pending => Fulfilled value | _ => p end.

Definition reject {A E} (reason : E) (p : promise A E) : promise A E :=
  match p with Pending => Rejected reason | _ => p end.

Definition is_fulfilled {A E} (p : promise A E) : bool :=
  match p with Fulfilled _ => true | _ => false end.

Definition is_rejected {A E} (p : promise A E) : bool :=
  match p with Rejected _ => true | _ => false end.

(** ** Numbers

    A finite binary64 value is a rational, and an arithmetic operator of
    JavaScript is the exact operation followed by rounding to the nearest
    binary64 value, ties to the even significand.  [fl] is that rounding
    for rationals below the overflow threshold, which the delays of the
    source never approach. *)

(** The exponent [e] with [2^e <= x < 2^(e+1)], for [x > 0]. *)
Definition floor_log2 (x : Q) : Z :=
  let a := Qnum x in
  let b := Z.pos (Qden x) in
  let d := Z.log2 a - Z.log2 b in
  if (if 0 <=? d then b * 2 ^ d <=? a else b <=? a * 2 ^ (- d))
  then d else d - 1.

Definition pow2 (k : Z) : Q :=
  if 0 <=? k then inject_Z (2 ^ k) else / inject_Z (2 ^ (- k)).

(** The integer nearest to [y], the even one of two equally near. *)
Definition round_half_even (y : Q) : Z :=
  let f := Qfloor y in
  match Qcompare (y - inject_Z f) (1 # 2) with
  | Lt => f
  | Gt => f + 1
  | Eq => if Z.even f then f else f + 1
  end.

(** Rounding of a positive rational: 53 significant bits, and steps of
    [2^-1074] below [2^-1022]. *)
Definition fl_pos (x : Q) : Q :=
  let k := Z.max (floor_log2 x) (-1022) - 52 in
  (inject_Z (round_half_even (x / pow2 k)) * pow2 k)%Q.

Definition fl (x : Q) : Q :=
  match Qcompare x 0 with
  | Eq => 0%Q
  | Gt => fl_pos x
  | Lt => (- fl_pos (- x))%Q
  end.

(** [a + b] and [a * b] on numbers. *)
Definition add (a b : Q) : Q := fl (a + b).
Definition mul (a b : Q) : Q := fl (a * b).

(** [Math.min] of two finite numbers. *)
Definition Math_min (a b : Q) : Q := Qmin a b.

End Js.

(* ================================================================== *)
(** * Wire types *)
(* ================================================================== *)

(** [string | string[]], the value of a header field. *)
Inductive header_value : Type :=
| HStr (s : string)
| HList (l : list string).

(** A value of [http.RequestOptions.headers]: a header value or a number. *)
Inductive out_header_value : Type :=
| OHeader (v : header_value)
| ONumber (n : Z).

(** [interface ForwardedRequest]; the constant [type: 'request'] tag is
  left implicit. *)
Record ForwardedRequest : Type := mkRequest {
  req_requestId : string;
  req_method : string;
  req_path : string;
  req_headers : gmap string header_value;
  req_body : string                  (* base64 *)
}.

(** [interface ForwardedResponse]; the constant [type: 'response'] tag is
  left implicit. *)
Record ForwardedResponse : Type := mkResponse {
  res_requestId : string;
  res_status : Z;
  res_headers : gmap string header_value;
  res_body : string                  (* base64 *)
}.

(** Which of the two programs of [api.ts] a definition is taken from. *)
Inductive program : Type :=
| Api      (* async function tunnrl, lines 1-243 *)
| Cli.     (* async function startTunnel, lines 244-663 *)

(* ================================================================== *)
(** * Replay buffer ([recentRequests] of [startTunnel]) *)
(* ================================================================== *)

Module ReplayBuffer.

(** [recentRequests.push(request);
     if (recentRequests.length > 10) recentRequests.shift();] *)
Definition record (recentRequests : list ForwardedRequest)
    (request : ForwardedRequest) : list ForwardedRequest :=
  let pushed := Js.push recentRequests request in
  if (10 <? length pushed)%nat then Js.shift pushed else pushed.

(** The buffer after the requests [reqs] completed in this order,
    starting from [const recentRequests = []]. *)
Definition record_all (reqs : list ForwardedRequest) : list ForwardedRequest :=
  fold_left record reqs [].

End ReplayBuffer.

(* ================================================================== *)
(** * Transport selection of the two [forwardToLocal] copies *)
(* ================================================================== *)

Inductive transport : Type := http | https.

(** [localHost.startsWith('https') ? https : http]        (library)
  [localHost.startsWith('https://') ? https : http]     (command line) *)
Definition selectTransport (p : program) (localHost : string) : transport :=
  match p with
  | Api => if Js.startsWith localHost "https" then https else http
  | Cli => if Js.startsWith localHost "https://" then https else http
  end.

(* ================================================================== *)
(** * Node's [Buffer] and [JSON.stringify], as far as the source uses them *)
(* ================================================================== *)

Module Buffer.

Definition alphabet : string :=
  "ABCDEFGHIJKLMNOPQRSTUVWXYZabcdefghijklmnopqrstuvwxyz0123456789+/".

(** The base64 digit of a six-bit value. *)
Definition sextet_char (v : Z) : ascii :=
  match String.get (Z.to_nat v) alphabet with
  | Some c => c
  | None => "="%char
  end.

Definition octet (b : byte) : Z := Z.of_N (Byte.to_N b).

Definition byte_of_Z (n : Z) : byte :=
  match Byte.of_N (Z.to_N (n mod 256)) with
  | Some b => b
  | None => x00
  end.

(** [buf.toString('base64')]: RFC 4648 with padding.  Three bytes make a
    24-bit group that is written as four six-bit digits. *)
Fixpoint toString_base64 (buf : list byte) : string :=
  match buf with
  | [] => EmptyString
  | [a] =>
      let n := octet a * 65536 in
      String (sextet_char (n / 262144))
        (String (sextet_char ((n / 4096) mod 64)) "==")
  | [a; b] =>
      let n := octet a * 65536 + octet b * 256 in
      String (sextet_char (n / 262144))
        (String (sextet_char ((n / 4096) mod 64))
           (String (sextet_char ((n / 64) mod 64)) "="))
  | a :: b :: c :: rest =>
      let n := octet a * 65536 + octet b * 256 + octet c in
      String (sextet_char (n / 262144))
        (String (sextet_char ((n / 4096) mod 64))
           (String (sextet_char ((n / 64) mod 64))
              (String (sextet_char (n mod 64)) (toString_base64 rest))))
  end.

(** The value of a base64 digit; both the standard and the URL-safe
    alphabet are accepted, as Node does. *)
Definition unbase64 (c : ascii) : option Z :=
  let n := Z.of_N (N_of_ascii c) in
  if (65 <=? n) && (n <=? 90) then Some (n - 65)
  else if (97 <=? n) && (n <=? 122) then Some (n - 71)
  else if (48 <=? n) && (n <=? 57) then Some (n + 4)
  else if (n =? 43) || (n =? 45) then Some 62
  else if (n =? 47) || (n =? 95) then Some 63
  else None.

(** The digits of a base64 text: characters outside the alphabet are
    skipped and the first [=] ends the text. *)
Fixpoint sextets (s : string) : list Z :=
  match s with
  | EmptyString => []
  | String c rest =>
      if Ascii.eqb c "="%char then []
      else match unbase64 c with
           | Some v => v :: sextets rest
           | None => sextets rest
           end
  end.

Fixpoint of_sextets (l : list Z) : list byte :=
  match l with
  | a :: b :: c :: d :: rest =>
      let n := a * 262144 + b * 4096 + c * 64 + d in
      byte_of_Z (n / 65536) :: byte_of_Z (n / 256) :: byte_of_Z n
        :: of_sextets rest
  | [a; b; c] =>
      let n := a * 262144 + b * 4096 + c * 64 in
      [byte_of_Z (n / 65536); byte_of_Z (n / 256)]
  | [a; b] =>
      let n := a * 262144 + b * 4096 in
      [byte_of_Z (n / 65536)]
  | _ => []
  end.

(** [Buffer.from(s, 'base64')]: lenient, never throws on a string.  Node
    reads one digit from each code unit; for the strings of the model,
    whose code units lie below 256, that is the character itself. *)
Definition from_base64 (s : string) : list byte := of_sextets (sextets s).

(** [Buffer.from(s)], the UTF-8 bytes of [s], for [s] of ASCII characters:
    one byte for each. *)
Definition from_string (s : string) : list byte := list_byte_of_string s.

(** [Buffer.concat(chunks)] *)
Definition concat (chunks : list (list byte)) : list byte := List.concat chunks.

End Buffer.

Module Json.

Definition dquote : ascii := "034"%char.
Definition backslash : ascii := "092"%char.

Definition hex_digit (n : N) : ascii :=
  match String.get (N.to_nat n) "0123456789abcdef" with
  | Some c => c
  | None => "0"%char
  end.

(** One character inside a JSON string literal, as [JSON.stringify]
    writes it (ECMA-262, QuoteJSONString). *)
Definition quote_char (c : ascii) : string :=
  let n := N_of_ascii c in
  if Ascii.eqb c dquote then String backslash (String dquote EmptyString)
  else if Ascii.eqb c backslash then String backslash (String backslash EmptyString)
  else if (n =? 8)%N then String backslash "b"
  else if (n =? 9)%N then String backslash "t"
  else if (n =? 10)%N then String backslash "n"
  else if (n =? 12)%N then String backslash "f"
  else if (n =? 13)%N then String backslash "r"
  else if (n <? 32)%N then
    String backslash
      (String "u" (String "0" (String "0"
         (String (hex_digit (N.shiftr n 4))
            (String (hex_digit (N.land n 15)) EmptyString)))))
  else String c EmptyString.

Fixpoint quote_chars (s : string) : string :=
  match s with
  | EmptyString => EmptyString
  | String c rest => String.append (quote_char c) (quote_chars rest)
  end.

Definition quote (s : string) : string :=
  String dquote (String.append (quote_chars s) (String dquote EmptyString)).

Fixpoint members (fields : list (string * string)) : string :=
  match fields with
  | [] => EmptyString
  | [(k, v)] => String.append (quote k) (String ":" (quote v))
  | (k, v) :: rest =>
      String.append (quote k)
        (String ":" (String.append (quote v) (String "," (members rest))))
  end.

(** [JSON.stringify(o)] for an object literal [o] whose properties, in the
    order written, are the string-valued [fields]. *)
Definition stringify (fields : list (string * string)) : string :=
  String "{" (String.append (members fields) "}").

End Json.

(* ================================================================== *)
(** * Local HTTP forwarder ([forwardToLocal], both copies) *)
(* ================================================================== *)

(** The executor of [forwardToLocal] builds the outbound request, arms
    its timeout, writes the body and returns; everything else happens in
    the callbacks it registered.  The model has the executor as [start],
    for the path on which every call into Node returns, and as [executor]
    with the paths on which one of them throws; the callbacks are the
    cases of [handle].  The two copies differ in the transport they
    select and in the text of their error bodies. *)

Module Forward.

(** The fields the loop of [forwardToLocal] leaves out. *)
Definition HOP_BY_HOP : list string :=
  [ "connection"; "keep-alive"; "transfer-encoding"; "upgrade";
    "proxy-connection"; "te"; "trailers" ].

(** [headers[key] = val] on the plain object [headers].  The key
    [__proto__] names the accessor a plain object inherits, not a property
    of its own: the assignment runs the setter, which gives [headers] no
    entry (a string is ignored, an array becomes the prototype). *)
Definition assign (headers : gmap string header_value) (key : string)
    (val : header_value) : gmap string header_value :=
  if String.eqb key "__proto__" then headers else <[key := val]> headers.

(** [for (const [key, val] of Object.entries(request.headers)) {
       const lower = key.toLowerCase();
       if ([...].includes(lower)) continue;
       headers[key] = val; }]
    started from [headers = {}]. *)
Definition copy_headers (hs : gmap string header_value)
    : gmap string header_value :=
  map_fold
    (fun key val headers =>
       let lower := Js.toLowerCase key in
       if Js.includes HOP_BY_HOP lower then headers
       else assign headers key val)
    ∅ hs.

(** The template literal [`${localHost}:${localPort}`]. *)
Definition host_port (localHost : string) (localPort : Z) : string :=
  String.append localHost (String ":" (pretty localPort)).

(** [http.RequestOptions], as [forwardToLocal] fills it. *)
Record RequestOptions : Type := mkOptions {
  hostname : string;
  port : Z;
  path : string;
  method : string;
  headers : gmap string out_header_value
}.

(** [headers['host'] = `${localHost}:${localPort}`] followed by
    [{ ...headers, 'content-length': bodyBuf.length }]. *)
Definition outbound_headers (localHost : string) (localPort : Z)
    (request : ForwardedRequest) : gmap string out_header_value :=
  let bodyBuf := Buffer.from_base64 (req_body request) in
  let headers := copy_headers (req_headers request) in
  let headers := <["host" := HStr (host_port localHost localPort)]> headers in
  <["content-length" := ONumber (Z.of_nat (length bodyBuf))]>
    (OHeader <$> headers).

Definition request_options (localHost : string) (localPort : Z)
    (request : ForwardedRequest) : RequestOptions :=
  {| hostname := localHost;
     port := localPort;
     path := req_path request;
     method := req_method request;
     headers := outbound_headers localHost localPort request |}.

Definition json_headers : gmap string header_value :=
  {[ "content-type" := HStr "application/json" ]}.

(** [makeErrorResponse] of the library. *)
Definition makeErrorResponse (requestId : string) (status : Z)
    (message : string) : ForwardedResponse :=
  {| res_requestId := requestId;
     res_status := status;
     res_headers := json_headers;
     res_body :=
       Buffer.toString_base64
         (Buffer.from_string (Json.stringify [("error", message)])) |}.

(** The response built in [localRes.on('error', ...)]. *)
Definition response_stream_error (p : program) (request : ForwardedRequest)
    : ForwardedResponse :=
  match p with
  | Api => makeErrorResponse (req_requestId request) 502 "Local service error"
  | Cli =>
      {| res_requestId := req_requestId request;
         res_status := 502;
         res_headers := json_headers;
         res_body :=
           Buffer.toString_base64
             (Buffer.from_string
                (Json.stringify [("error", "Local service error")])) |}
  end.

(** The response built in [localReq.on('error', ...)]. *)
Definition connect_error (p : program) (localHost : string) (localPort : Z)
    (request : ForwardedRequest) : ForwardedResponse :=
  match p with
  | Api =>
      makeErrorResponse (req_requestId request) 502
        (String.append "Could not connect to "
           (String.append (host_port localHost localPort)
              ". Is your service running?"))
  | Cli =>
      {| res_requestId := req_requestId request;
         res_status := 502;
         res_headers := json_headers;
         res_body :=
           Buffer.toString_base64
             (Buffer.from_string
                (Json.stringify
                   [ ("error", "Bad Gateway");
                     ("message",
                      String.append "Could not connect to "
                        (String.append (host_port localHost localPort)
                           ". Is your local service running?")) ])) |}
  end.

(** The response built in the callback of [localReq.setTimeout]. *)
Definition timeout_response (p : program) (request : ForwardedRequest)
    : ForwardedResponse :=
  match p with
  | Api =>
      makeErrorResponse (req_requestId request) 504 "Local service timed out"
  | Cli =>
      {| res_requestId := req_requestId request;
         res_status := 504;
         res_headers := json_headers;
         res_body :=
           Buffer.toString_base64
             (Buffer.from_string
                (Json.stringify
                   [ ("error", "Gateway Timeout");
                     ("message", "Local service took too long to respond") ])) |}
  end.

(** The response built in [localRes.on('end', ...)]:
    [status: localRes.statusCode ?? 200]. *)
Definition success_response (request : ForwardedRequest)
    (statusCode : option Z) (resHeaders : gmap string header_value)
    (chunks : list (list byte)) : ForwardedResponse :=
  {| res_requestId := req_requestId request;
     res_status := match statusCode with Some s => s | None => 200 end;
     res_headers := resHeaders;
     res_body := Buffer.toString_base64 (Buffer.concat chunks) |}.

(** What the executor hands to Node before it returns: the request it
    opened, the timeout it armed and the body it wrote. *)
Record local_call : Type := mkCall {
  call_transport : transport;
  call_options : RequestOptions;
  call_timeout_ms : Z;                  (* localReq.setTimeout(25_000, ...) *)
  call_writes : list (list byte);       (* localReq.write(bodyBuf) *)
  call_ended : bool                     (* localReq.end() *)
}.

(** The mutable state the callbacks of one forward share. *)
Record state : Type := mkState {
  promise : Js.promise ForwardedResponse string;
  localRes : option (option Z * gmap string header_value);
  chunks : list (list byte);
  destroyed : bool                      (* localReq.destroy() was called *)
}.

(** What Node can deliver to the callbacks of one forward. *)
Inductive event : Type :=
| ReqError                              (* localReq 'error' *)
| ReqTimeout                            (* the timeout of localReq fires *)
| ResHead (statusCode : option Z) (resHeaders : gmap string header_value)
                                        (* the response callback *)
| ResData (chunk : list byte)           (* localRes 'data' *)
| ResEnd                                (* localRes 'end' *)
| ResError.                             (* localRes 'error' *)

(** The synchronous part of the executor, on the path where
    [transport.request], [localReq.write] and [localReq.end] return. *)
Definition start (p : program) (localHost : string) (localPort : Z)
    (request : ForwardedRequest) : local_call * state :=
  let bodyBuf := Buffer.from_base64 (req_body request) in
  ( {| call_transport := selectTransport p localHost;
       call_options := request_options localHost localPort request;
       call_timeout_ms := 25000;
       call_writes := if (0 <? length bodyBuf)%nat then [bodyBuf] else [];
       call_ended := true |},
    {| promise := Js.Pending; localRes := None; chunks := [];
       destroyed := false |} ).

(** One callback run.  The response callback is registered once by Node;
    the listeners on [localRes] exist only after it ran. *)
Definition handle (p : program) (localHost : string) (localPort : Z)
    (request : ForwardedRequest) (st : state) (ev : event) : state :=
  match ev with
  | ReqError =>
      {| promise := Js.resolve (connect_error p localHost localPort request)
                      (promise st);
         localRes := localRes st; chunks := chunks st;
         destroyed := destroyed st |}
  | ReqTimeout =>
      {| promise := Js.resolve (timeout_response p request) (promise st);
         localRes := localRes st; chunks := chunks st;
         destroyed := true |}
  | ResHead statusCode resHeaders =>
      match localRes st with
      | None =>
          {| promise := promise st;
             localRes := Some (statusCode, resHeaders); chunks := [];
             destroyed := destroyed st |}
      | Some _ => st
      end
  | ResData chunk =>
      match localRes st with
      | Some _ =>
          {| promise := promise st; localRes := localRes st;
             chunks := Js.push (chunks st) chunk;
             destroyed := destroyed st |}
      | None => st
      end
  | ResEnd =>
      match localRes st with
      | Some (statusCode, resHeaders) =>
          {| promise :=
               Js.resolve
                 (success_response request statusCode resHeaders (chunks st))
                 (promise st);
             localRes := localRes st; chunks := chunks st;
             destroyed := destroyed st |}
      | None => st
      end
  | ResError =>
      match localRes st with
      | Some _ =>
          {| promise := Js.resolve (response_stream_error p request) (promise st);
             localRes := localRes st; chunks := chunks st;
             destroyed := destroyed st |}
      | None => st
      end
  end.

(** [forwardToLocal]: the promise after Node delivered [events]. *)
Definition forwardToLocal (p : program) (localHost : string) (localPort : Z)
    (request : ForwardedRequest) (events : list event)
    : Js.promise ForwardedResponse string :=
  promise
    (fold_left (handle p localHost localPort request) events
       (snd (start p localHost localPort request))).

(** ** Calls that throw

    [transport.request], [localReq.write] and [localReq.end] can throw
    instead of returning.  The executor catches nothing, so the promise
    constructor rejects the promise with what was thrown, and the rest of
    the executor does not run. *)

(** What Node does with each of the three calls, should the executor
    reach it. *)
Record node : Type := mkNode {
  request_throws : bool;                (* transport.request(options, ...) *)
  write_throws : bool;                  (* localReq.write(bodyBuf) *)
  end_throws : bool;                    (* localReq.end() *)
  thrown : string                       (* the error of the throwing call *)
}.

(** Whether the executor runs into a call that throws. *)
Definition throws (request : ForwardedRequest) (n : node) : bool :=
  request_throws n
  || (0 <? length (Buffer.from_base64 (req_body request)))%nat && write_throws n
  || end_throws n.

(** The executor: what it handed to Node, if it came to open a request,
    and the state it leaves behind. *)
Definition executor (p : program) (localHost : string) (localPort : Z)
    (request : ForwardedRequest) (n : node) : option local_call * state :=
  let bodyBuf := Buffer.from_base64 (req_body request) in
  let call := fst (start p localHost localPort request) in
  let st := snd (start p localHost localPort request) in
  let rejected :=
    {| promise := Js.reject (thrown n) (promise st);
       localRes := localRes st; chunks := chunks st;
       destroyed := destroyed st |} in
  if request_throws n then (None, rejected)
  else if (0 <? length bodyBuf)%nat && write_throws n then
    ( Some {| call_transport := call_transport call;
              call_options := call_options call;
              call_timeout_ms := call_timeout_ms call;
              call_writes := [];
              call_ended := false |},
      rejected )
  else if end_throws n then
    ( Some {| call_transport := call_transport call;
              call_options := call_options call;
              call_timeout_ms := call_timeout_ms call;
              call_writes := call_writes call;
              call_ended := false |},
      rejected )
  else (Some call, st).

(** [forwardToLocal] with the calls into Node behaving as [n]: the
    promise after Node delivered [events]. *)
Definition forwardToLocal_with (n : node) (p : program) (localHost : string)
    (localPort : Z) (request : ForwardedRequest) (events : list event)
    : Js.promise ForwardedResponse string :=
  promise
    (fold_left (handle p localHost localPort request) events
       (snd (executor p localHost localPort request n))).

(** Node's [INVALID_PATH_REGEX], [/[^\u0021-\u00ff]/]: [http.request] and
    [https.request] throw [ERR_UNESCAPED_CHARACTERS] for a path with a
    character it matches, a blank for one. *)
Definition invalid_path (path : string) : bool :=
  existsb (fun c => (nat_of_ascii c <=? 32)%nat) (list_ascii_of_string path).

(** [n] does with [options] what Node's path check fixes. *)
Definition agrees (options : RequestOptions) (n : node) : Prop :=
  invalid_path (path options) = true -> request_throws n = true.

(** Whether the response callback has run. *)
Definition head_seen (st : state) : bool :=
  match localRes st with Some _ => true | None => false end.

(** The promise holds nothing but a response with the id of [request]. *)
Definition correlated (request : ForwardedRequest) (st : state) : Prop :=
  match promise st with
  | Js.Fulfilled r => res_requestId r = req_requestId request
  | Js.Pending => True
  | Js.Rejected _ => False
  end.

(** Whether a run of events brings the exchange with the local service to
    an end: the request fails or times out, or the response, once its head
    has arrived ([headSeen]), ends or fails. *)
Fixpoint completes (headSeen : bool) (events : list event) : bool :=
  match events with
  | [] => false
  | ReqError :: _ | ReqTimeout :: _ => true
  | ResHead _ _ :: rest => completes true rest
  | ResData _ :: rest => completes headSeen rest
  | ResEnd :: rest | ResError :: rest => headSeen || completes headSeen rest
  end.

End Forward.

(* ================================================================== *)
(** * Inbound frames: what [JSON.parse] hands to the message handlers *)
(* ================================================================== *)

Module Frame.

#[local] Set Warnings "-register-all".

(** A JavaScript value as [JSON.parse] builds it, and [undefined] for the
    properties an object lacks.  Numbers are the integer-valued ones; no
    handler computes with a number taken from a frame. *)
Inductive jsval : Type :=
| JUndefined
| JNull
| JBool (b : bool)
| JNum (n : Z)
| JStr (s : string)
| JArr (items : list jsval)
| JObj (fields : list (string * jsval)).

(** A duplicated key keeps its last value, as in [JSON.parse]. *)
Fixpoint lookup_field (k : string) (fields : list (string * jsval))
    : option jsval :=
  match fields with
  | [] => None
  | (k', v) :: rest =>
      match lookup_field k rest with
      | Some w => Some w
      | None => if String.eqb k k' then Some v else None
      end
  end.

(** [v.k] for a property name [k] that no prototype defines ([type],
    [message], [url], ...): [None] is the TypeError of reading a property
    of [null] or [undefined]. *)
Definition prop (v : jsval) (k : string) : option jsval :=
  match v with
  | JUndefined | JNull => None
  | JObj fields =>
      Some (match lookup_field k fields with Some w => w | None => JUndefined end)
  | _ => Some JUndefined
  end.

(** [v === 'lit'] *)
Definition is_string (v : jsval) (lit : string) : bool :=
  match v with
  | JStr s => String.eqb s lit
  | _ => false
  end.

Fixpoint join (sep : string) (parts : list string) : string :=
  match parts with
  | [] => EmptyString
  | [s] => s
  | s :: rest => String.append s (String.append sep (join sep rest))
  end.

(** [`${v}`], the ToString conversion of a template literal. *)
Fixpoint toString (v : jsval) : string :=
  match v with
  | JUndefined => "undefined"
  | JNull => "null"
  | JBool true => "true"
  | JBool false => "false"
  | JNum n => pretty n
  | JStr s => s
  | JArr items =>
      join ","
        (map (fun item =>
                match item with
                | JUndefined | JNull => EmptyString
                | _ => toString item
                end) items)
  | JObj _ => "[object Object]"
  end.

(** [JSON.parse(data.toString())] inside [try { ... } catch { return; }]:
    [None] stands for a frame on which [JSON.parse] throws. *)
Definition parsed : Type := option jsval.

Fixpoint as_strings (items : list jsval) : option (list string) :=
  match items with
  | [] => Some []
  | JStr s :: rest =>
      match as_strings rest with
      | Some l => Some (s :: l)
      | None => None
      end
  | _ :: _ => None
  end.

Definition as_header_value (v : jsval) : option header_value :=
  match v with
  | JStr s => Some (HStr s)
  | JArr items =>
      match as_strings items with
      | Some l => Some (HList l)
      | None => None
      end
  | _ => None
  end.

Fixpoint as_headers (fields : list (string * jsval))
    : option (gmap string header_value) :=
  match fields with
  | [] => Some ∅
  | (k, v) :: rest =>
      match as_header_value v, as_headers rest with
      | Some hv, Some m =>
          Some (match m !! k with Some _ => m | None => <[k := hv]> m end)
      | _, _ => None
      end
  end.

(** [msg as ForwardedRequest]: the cast checks nothing at run time; here it
    succeeds exactly on the objects that are of the interface. *)
Definition as_ForwardedRequest (msg : jsval) : option ForwardedRequest :=
  match msg with
  | JObj fields =>
      match lookup_field "requestId" fields, lookup_field "method" fields,
            lookup_field "path" fields, lookup_field "headers" fields,
            lookup_field "body" fields with
      | Some (JStr requestId), Some (JStr method), Some (JStr path),
        Some (JObj hs), Some (JStr body) =>
          match as_headers hs with
          | Some headers => Some (mkRequest requestId method path headers body)
          | None => None
          end
      | _, _, _, _, _ => None
      end
  | _ => None
  end.

(** The shapes of the wire table: what a frame of each known variant is
    expected to look like. *)
Definition registered_shape (msg : jsval) : bool :=
  match prop msg "type", prop msg "subdomain", prop msg "url" with
  | Some (JStr t), Some (JStr _), Some (JStr _) => String.eqb t "registered"
  | _, _, _ => false
  end.

Definition error_shape (msg : jsval) : bool :=
  match prop msg "type", prop msg "message" with
  | Some (JStr t), Some (JStr _) => String.eqb t "error"
  | _, _ => false
  end.

Definition request_shape (msg : jsval) : bool :=
  match prop msg "type", as_ForwardedRequest msg with
  | Some (JStr t), Some _ => String.eqb t "request"
  | _, _ => false
  end.

Definition response_shape (msg : jsval) : bool :=
  match msg with
  | JObj fields =>
      match lookup_field "type" fields, lookup_field "requestId" fields,
            lookup_field "status" fields, lookup_field "headers" fields,
            lookup_field "body" fields with
      | Some (JStr t), Some (JStr _), Some (JNum _), Some (JObj hs),
        Some (JStr _) =>
          String.eqb t "response" && bool_decide (is_Some (as_headers hs))
      | _, _, _, _, _ => false
      end
  | _ => false
  end.

(** A frame that parses as one of the known message variants. *)
Definition well_shaped (frame : parsed) : bool :=
  match frame with
  | None => false
  | Some msg =>
      registered_shape msg || error_shape msg || request_shape msg
      || response_shape msg
  end.

(** A frame the handlers have no branch for: [JSON.parse] throws on it,
    or it parses to a value other than [null] whose [type] is none of the
    three tags the handlers compare it with. *)
Definition unhandled (frame : parsed) : bool :=
  match frame with
  | None => true
  | Some msg =>
      match prop msg "type" with
      | None => false
      | Some t =>
          negb (is_string t "error" || is_string t "registered"
                || is_string t "request")
      end
  end.

End Frame.

(** [ws.readyState] *)
Inductive ready_state : Type := CONNECTING | OPEN | CLOSING | CLOSED.

Definition is_open (rs : ready_state) : bool :=
  match rs with OPEN => true | _ => false end.

(** How a run of an [async] message handler ends. *)
Inductive outcome (S E : Type) : Type :=
| Returned (st : S) (effects : list E)
    (* ran to its end *)
| Awaiting (st : S) (effects : list E) (request : ForwardedRequest)
    (* suspended at [await forwardToLocal(...)] *)
| IllTyped (st : S) (effects : list E)
    (* [forwardToLocal] was called on an object that is not a
       [ForwardedRequest]: what happens from there is not modelled *)
| Threw.
    (* an exception left the handler: its promise rejects *)
Arguments Returned {S E} st effects.
Arguments Awaiting {S E} st effects request.
Arguments IllTyped {S E} st effects.
Arguments Threw {S E}.

(* ================================================================== *)
(** * The library entry point [tunnrl] *)
(* ================================================================== *)

Module Tunnrl.

(** [interface RequestInfo] *)
Record RequestInfo : Type := mkInfo {
  info_method : string;
  info_path : string;
  info_status : Z;
  info_duration : Z
}.

(** What the callbacks of [tunnrl] do to the socket, to the connect timer
    and to the listeners of the tunnel. *)
Inductive effect : Type :=
| WsClose                               (* ws.close() *)
| WsTerminate                           (* ws.terminate() *)
| WsSend (response : ForwardedResponse) (* ws.send(JSON.stringify(response)) *)
| WsPong                                (* ws.pong() *)
| ClearConnectTimeout                   (* clearTimeout(connectTimeout) *)
| EmitRequest (info : RequestInfo)      (* tunnel.emit('request', ...) *)
| EmitClose                             (* tunnel.emit('close') *)
| EmitError (err : string).             (* tunnel.emit('error', err) *)

(** The variables the callbacks share: the tunnel handle, [resolved] and
    the promise [tunnrl] returned. *)
Record state : Type := mkState {
  url : Frame.jsval;                    (* tunnel.url *)
  closed_ : bool;                       (* tunnel._closed *)
  resolved : bool;
  result : Js.promise unit string       (* resolve(tunnel) / reject(Error) *)
}.

Definition set_result (st : state) (r : Js.promise unit string) : state :=
  {| url := url st; closed_ := closed_ st; resolved := resolved st;
     result := r |}.

(** The state when the executor of [tunnrl] returns. *)
Definition initial : state :=
  {| url := Frame.JStr EmptyString; closed_ := false; resolved := false;
     result := Js.Pending |}.

(** [options.local_host ?? 'localhost'] *)
Definition localHost_of (local_host : option string) : string :=
  match local_host with Some h => h | None => "localhost" end.

(** [ws.on('message', async (data) => ...)] up to its first suspension. *)
Definition on_message (st : state) (frame : Frame.parsed)
    : outcome state effect :=
  match frame with
  | None => Returned st []
  | Some msg =>
      match Frame.prop msg "type" with
      | None => Threw
      | Some type =>
          if Frame.is_string type "error" then
            let message :=
              match Frame.prop msg "message" with
              | Some m => m
              | None => Frame.JUndefined
              end in
            Returned
              (if resolved st then st
               else set_result st
                      (Js.reject
                         (String.append "tunnrl: " (Frame.toString message))
                         (result st)))
              [ClearConnectTimeout; WsClose]
          else if Frame.is_string type "registered" then
            let u :=
              match Frame.prop msg "url" with
              | Some u => u
              | None => Frame.JUndefined
              end in
            Returned
              {| url := u; closed_ := closed_ st; resolved := true;
                 result := Js.resolve tt (result st) |}
              [ClearConnectTimeout]
          else if Frame.is_string type "request" then
            match Frame.as_ForwardedRequest msg with
            | Some request => Awaiting st [] request
            | None => IllTyped st []
            end
          else Returned st []
      end
  end.

(** The rest of the request branch, run when [forwardToLocal] has resolved
    with [response]; [readyState] is what [ws.readyState] reads then. *)
Definition on_forwarded (st : state) (request : ForwardedRequest)
    (response : ForwardedResponse) (duration : Z) (readyState : ready_state)
    : state * list effect :=
  ( st,
    EmitRequest
      {| info_method := req_method request;
         info_path := req_path request;
         info_status := res_status response;
         info_duration := duration |}
    :: (if is_open readyState then [WsSend response] else []) ).

(** [ws.on('close', ...)] *)
Definition on_close (st : state) : state * list effect :=
  if resolved st then (st, [EmitClose])
  else
    ( set_result st
        (Js.reject "tunnrl: connection closed before tunnel was established"
           (result st)),
      [ClearConnectTimeout] ).

(** [ws.on('error', (err) => ...)] *)
Definition on_error (st : state) (err : string) : state * list effect :=
  if resolved st then (st, [ClearConnectTimeout; EmitError err])
  else (set_result st (Js.reject err (result st)), [ClearConnectTimeout]).

(** [ws.on('ping', ...)] *)
Definition on_ping (st : state) (readyState : ready_state)
    : state * list effect :=
  (st, if is_open readyState then [WsPong] else []).

(** [Tunnel.close()] *)
Definition close (st : state) : state * list effect :=
  if closed_ st then (st, [])
  else
    ( {| url := url st; closed_ := true; resolved := resolved st;
         result := result st |},
      [WsClose; EmitClose] ).

(** The callback of [connectTimeout]. *)
Definition on_connect_timeout (st : state) : state * list effect :=
  ( set_result st
      (Js.reject "tunnrl: connection timed out after 15s" (result st)),
    [WsTerminate] ).

(** What the event loop can deliver to the callbacks of [tunnrl]. *)
Inductive event : Type :=
| Message (frame : Frame.parsed)
| Forwarded (request : ForwardedRequest) (response : ForwardedResponse)
    (duration : Z) (readyState : ready_state)
| Closed
| Errored (err : string)
| Pinged (readyState : ready_state)
| ConnectTimeout
| CloseCalled.                   (* the caller runs tunnel.close() *)

(** One turn of the event loop.  A message handler that throws or leaves
    the model keeps the state it had. *)
Definition step (st : state) (ev : event) : state * list effect :=
  match ev with
  | Message frame =>
      match on_message st frame with
      | Returned st' effects => (st', effects)
      | Awaiting st' effects _ => (st', effects)
      | IllTyped st' effects => (st', effects)
      | Threw => (st, [])
      end
  | Forwarded request response duration readyState =>
      on_forwarded st request response duration readyState
  | Closed => on_close st
  | Errored err => on_error st err
  | Pinged readyState => on_ping st readyState
  | ConnectTimeout => on_connect_timeout st
  | CloseCalled => close st
  end.

Fixpoint run (st : state) (events : list event) : state * list effect :=
  match events with
  | [] => (st, [])
  | ev :: rest =>
      let '(st', effects) := step st ev in
      let '(st'', effects') := run st' rest in
      (st'', effects ++ effects')
  end.

(** The frames of type [response] the handlers sent. *)
Definition sent (effects : list effect) : list ForwardedResponse :=
  omap (fun e => match e with WsSend r => Some r | _ => None end) effects.

(** The responses of the forwards that completed while the socket was
    open, in the order of their completion. *)
Definition answers (events : list event) : list ForwardedResponse :=
  flat_map
    (fun ev =>
       match ev with
       | Forwarded _ response _ readyState =>
           if is_open readyState then [response] else []
       | _ => []
       end) events.

End Tunnrl.

(* ================================================================== *)
(** * The command line client [startTunnel] *)
(* ================================================================== *)

Module StartTunnel.

(** A [WebSocket] object, named by the order of its creation. *)
Definition socket : Type := nat.

(** What the callbacks of [startTunnel] do to the outside.  [Terminal]
    stands for the lines a callback prints at that point; their text is
    not modelled. *)
Inductive effect : Type :=
| NewWebSocket (s : socket)      (* new WebSocket('wss://tunnrl.dev/register') *)
| WsClose (s : socket)           (* ws.close() *)
| WsSend (s : socket) (response : ForwardedResponse)
| WsPong (s : socket)
| SetTimeout (delay : Q)         (* setTimeout(..., delay) of scheduleReconnect *)
| Terminal                       (* console.log / console.clear *)
| ProcessExit (code : Z).        (* process.exit(code) *)

(** The variables of the closure of [startTunnel]. *)
Record state : Type := mkState {
  reconnectDelay : Z;                         (* ms *)
  reconnectAttempts : Z;
  shuttingDown : bool;
  ws : option socket;
  sockets : nat;                              (* sockets created so far *)
  recentRequests : list ForwardedRequest;
  tunnelUrl : Frame.jsval;
  exited : option Z                           (* process.exit was called *)
}.

(** The state before the first [connect()]. *)
Definition initial : state :=
  {| reconnectDelay := 1000; reconnectAttempts := 0; shuttingDown := false;
     ws := None; sockets := 0; recentRequests := [];
     tunnelUrl := Frame.JStr EmptyString; exited := None |}.

(** [connect()] *)
Definition connect (st : state) : state * list effect :=
  if shuttingDown st then (st, [])
  else
    ( {| reconnectDelay := reconnectDelay st;
         reconnectAttempts := reconnectAttempts st;
         shuttingDown := shuttingDown st;
         ws := Some (sockets st); sockets := S (sockets st);
         recentRequests := recentRequests st; tunnelUrl := tunnelUrl st;
         exited := exited st |},
      [NewWebSocket (sockets st)] ).

(** [ws.on('open', ...)] *)
Definition on_open (st : state) : state * list effect :=
  ( {| reconnectDelay := 1000; reconnectAttempts := 0;
       shuttingDown := shuttingDown st; ws := ws st; sockets := sockets st;
       recentRequests := recentRequests st; tunnelUrl := tunnelUrl st;
       exited := exited st |},
    [Terminal] ).

(** [ws?.close()] *)
Definition close_ws (st : state) : list effect :=
  match ws st with Some s => [WsClose s] | None => [] end.

(** [shuttingDown = true; ws?.close(); process.exit(code);] *)
Definition shut_down (st : state) (code : Z) : state * list effect :=
  ( {| reconnectDelay := reconnectDelay st;
       reconnectAttempts := reconnectAttempts st;
       shuttingDown := true; ws := ws st; sockets := sockets st;
       recentRequests := recentRequests st; tunnelUrl := tunnelUrl st;
       exited := Some code |},
    close_ws st ++ [ProcessExit code] ).

(** [ws.on('message', async (data) => ...)] up to its first suspension. *)
Definition on_message (st : state) (frame : Frame.parsed)
    : outcome state effect :=
  match frame with
  | None => Returned st []
  | Some msg =>
      match Frame.prop msg "type" with
      | None => Threw
      | Some type =>
          if Frame.is_string type "error" then
            let '(st', effects) := shut_down st 1 in
            Returned st' (Terminal :: effects)
          else if Frame.is_string type "registered" then
            let u :=
              match Frame.prop msg "url" with
              | Some u => u
              | None => Frame.JUndefined
              end in
            Returned
              {| reconnectDelay := reconnectDelay st;
                 reconnectAttempts := reconnectAttempts st;
                 shuttingDown := shuttingDown st; ws := ws st;
                 sockets := sockets st; recentRequests := recentRequests st;
                 tunnelUrl := u; exited := exited st |}
              [Terminal]
          else if Frame.is_string type "request" then
            match Frame.as_ForwardedRequest msg with
            | Some request => Awaiting st [] request
            | None => IllTyped st []
            end
          else Returned st []
      end
  end.

(** The rest of the request branch, run when [forwardToLocal] has resolved
    with [response]; [readyState s] is what [s.readyState] reads then. *)
Definition on_forwarded (st : state) (request : ForwardedRequest)
    (response : ForwardedResponse) (readyState : socket -> ready_state)
    : state * list effect :=
  ( {| reconnectDelay := reconnectDelay st;
       reconnectAttempts := reconnectAttempts st;
       shuttingDown := shuttingDown st; ws := ws st; sockets := sockets st;
       recentRequests := ReplayBuffer.record (recentRequests st) request;
       tunnelUrl := tunnelUrl st; exited := exited st |},
    Terminal ::
    match ws st with
    | Some s => if is_open (readyState s) then [WsSend s response] else []
    | None => []
    end ).

(** [scheduleReconnect()], where [random] is what [Math.random()] returns. *)
Definition scheduleReconnect (st : state) (random : Q) : state * list effect :=
  let attempts := reconnectAttempts st + 1 in
  let jitter := Js.mul random 500 in
  let delay := Js.Math_min (Js.add (inject_Z (reconnectDelay st)) jitter) 30000 in
  ( {| reconnectDelay := Z.min (reconnectDelay st * 2) 30000;
       reconnectAttempts := attempts;
       shuttingDown := shuttingDown st; ws := ws st; sockets := sockets st;
       recentRequests := recentRequests st; tunnelUrl := tunnelUrl st;
       exited := exited st |},
    [SetTimeout delay] ).

(** [ws.on('close', ...)] *)
Definition on_close (st : state) (random : Q) : state * list effect :=
  if shuttingDown st then (st, [])
  else
    let '(st', effects) := scheduleReconnect st random in
    (st', Terminal :: effects).

(** [ws.on('error', ...)] *)
Definition on_error (st : state) : state * list effect :=
  if shuttingDown st then (st, []) else (st, [Terminal]).

(** [ws.on('ping', ...)] *)
Definition on_ping (st : state) (readyState : socket -> ready_state)
    : state * list effect :=
  ( st,
    match ws st with
    | Some s => if is_open (readyState s) then [WsPong s] else []
    | None => []
    end ).

(** The callback [scheduleReconnect] hands to [setTimeout]. *)
Definition on_reconnect_timer (st : state) : state * list effect :=
  if shuttingDown st then (st, [])
  else
    let '(st', effects) := connect st in
    (st', Terminal :: effects).

(** What the event loop can deliver to [startTunnel]. *)
Inductive event : Type :=
| Opened
| Message (frame : Frame.parsed)
| Forwarded (request : ForwardedRequest) (response : ForwardedResponse)
    (readyState : socket -> ready_state)
| Closed (random : Q)
| Errored
| Pinged (readyState : socket -> ready_state)
| ReconnectTimer
| Interrupt                      (* SIGINT, or the keys q, Q and Ctrl+C *)
| Terminate.                     (* SIGTERM *)

(** One turn of the event loop.  Nothing runs once [process.exit] was
    called.  A message handler that throws or leaves the model keeps the
    state it had. *)
Definition step (st : state) (ev : event) : state * list effect :=
  match exited st with
  | Some _ => (st, [])
  | None =>
      match ev with
      | Opened => on_open st
      | Message frame =>
          match on_message st frame with
          | Returned st' effects => (st', effects)
          | Awaiting st' effects _ => (st', effects)
          | IllTyped st' effects => (st', effects)
          | Threw => (st, [])
          end
      | Forwarded request response readyState =>
          on_forwarded st request response readyState
      | Closed random => on_close st random
      | Errored => on_error st
      | Pinged readyState => on_ping st readyState
      | ReconnectTimer => on_reconnect_timer st
      | Interrupt =>
          let '(st', effects) := shut_down st 0 in
          (st', Terminal :: effects)
      | Terminate => shut_down st 0
      end
  end.

Fixpoint run (st : state) (events : list event) : state * list effect :=
  match events with
  | [] => (st, [])
  | ev :: rest =>
      let '(st', effects) := step st ev in
      let '(st'', effects') := run st' rest in
      (st'', effects ++ effects')
  end.

(** The delays handed to [setTimeout], in order. *)
Definition delays (effects : list effect) : list Q :=
  omap (fun e => match e with SetTimeout d => Some d | _ => None end) effects.

(** Whether an effect opens a connection or arms the reconnect timer. *)
Definition reconnects (e : effect) : bool :=
  match e with
  | NewWebSocket _ | SetTimeout _ => true
  | _ => false
  end.

(** The frames of type [response] sent, with the socket they went to. *)
Definition sent (effects : list effect) : list (socket * ForwardedResponse) :=
  omap (fun e => match e with WsSend s r => Some (s, r) | _ => None end)
    effects.

(** The delay without its jitter at the k-th consecutive close after an
    open, k counted from 0. *)
Definition base_delay (k : nat) : Z := Z.min (1000 * 2 ^ Z.of_nat k) 30000.

(** The delays of consecutive closes, the first of them being the k-th
    after an open, when [Math.random()] returns [randoms] in turn. *)
Fixpoint backoff_delays (k : nat) (randoms : list Q) : list Q :=
  match randoms with
  | [] => []
  | r :: rest =>
      Js.Math_min (Js.add (inject_Z (base_delay k)) (Js.mul r 500)) 30000
        :: backoff_delays (S k) rest
  end.

(** The delay as the specification words it:
    [min(currentDelayMs, 30000) + jitter]. *)
Definition spec_delay (currentDelayMs : Z) (jitter : Q) : Q :=
  (inject_Z (Z.min currentDelayMs 30000) + jitter)%Q.

(** Unexpected closes, each followed by the reconnect it scheduled. *)
Definition unexpected_closes (randoms : list Q) : list event :=
  flat_map (fun r => [Closed r; ReconnectTimer]) randoms.

End StartTunnel.

(* ================================================================== *)
(** * Terminal rendering helpers of the command line client *)
(* ================================================================== *)

Module Display.

(** The chalk styles the helpers use. *)
Inductive color : Type := red | yellow | cyan | green | blue | magenta | white.

(** One character of [String.prototype.toUpperCase], ASCII range. *)
Definition upper_ascii (c : ascii) : ascii :=
  let n := nat_of_ascii c in
  if ((97 <=? n) && (n <=? 122))%nat then ascii_of_nat (n - 32) else c.

(** [s.toUpperCase()] *)
Fixpoint toUpperCase (s : string) : string :=
  match s with
  | EmptyString => EmptyString
  | String c rest => String (upper_ascii c) (toUpperCase rest)
  end.

Fixpoint spaces (n : nat) : string :=
  match n with
  | O => EmptyString
  | S k => String " " (spaces k)
  end.

(** [s.padEnd(n)] *)
Definition padEnd (s : string) (n : nat) : string :=
  String.append s (spaces (n - String.length s)).

(** [statusColor]: the style and the text [String(code)]. *)
Definition statusColor (code : Z) : color * string :=
  if 500 <=? code then (red, pretty code)
  else if 400 <=? code then (yellow, pretty code)
  else if 300 <=? code then (cyan, pretty code)
  else (green, pretty code).

(** [methodColor]: the style and the padded text. *)
Definition methodColor (method : string) : color * string :=
  let m := toUpperCase method in
  if String.eqb m "GET" then (green, padEnd m 6)
  else if String.eqb m "POST" then (blue, padEnd m 6)
  else if String.eqb m "PUT" then (yellow, padEnd m 6)
  else if String.eqb m "DELETE" then (red, padEnd m 6)
  else if String.eqb m "PATCH" then (magenta, padEnd m 6)
  else (white, padEnd m 6).

(** The tenths [Number.prototype.toFixed(1)] prints for the quotient
    [num / den] of two positive integers: the integer nearest to ten
    times the quotient, the larger one on a tie.  (The quotients of
    [formatBytes] divide by a power of two and are exact doubles for
    byte counts below 2^53.) *)
Definition tenths (num den : Z) : Z := (20 * num + den) / (2 * den).

(** [(num / den).toFixed(1)] *)
Definition toFixed1 (num den : Z) : string :=
  let n := tenths num den in
  String.append (pretty (n / 10)) (String "." (pretty (n mod 10))).

(** [formatBytes] *)
Definition formatBytes (bytes : Z) : string :=
  if bytes =? 0 then "0 B"
  else if bytes <? 1024 then String.append (pretty bytes) " B"
  else if bytes <? 1048576 then String.append (toFixed1 bytes 1024) " KB"
  else String.append (toFixed1 bytes 1048576) " MB".

(** [const sizeBytes = Buffer.from(response.body, 'base64').length;] *)
Definition sizeBytes (response : ForwardedResponse) : Z :=
  Z.of_nat (length (Buffer.from_base64 (res_body response))).

End Display.

(* ================================================================== *)
(** * The keyboard shortcuts of [startTunnel] *)
(* ================================================================== *)

Module Keyboard.

(** [process.platform], as far as the helpers tell it apart. *)
Inductive platform : Type := darwin | win32 | other_platform.

Definition dq : string := String Json.dquote EmptyString.

(** [openInBrowser]: the command handed to [exec]. *)
Definition openInBrowser (pf : platform) (url : string) : string :=
  match pf with
  | darwin => String.concat EmptyString ["open "; dq; url; dq]
  | win32 => String.concat EmptyString ["start "; dq; dq; " "; dq; url; dq]
  | other_platform => String.concat EmptyString ["xdg-open "; dq; url; dq]
  end.

(** [copyToClipboard]: the command handed to [exec]. *)
Definition copyToClipboard (pf : platform) (text : string) : string :=
  match pf with
  | darwin =>
      String.concat EmptyString ["printf '%s' '"; text; "' | pbcopy"]
  | win32 =>
      String.concat EmptyString ["echo|set /p="; dq; text; dq; "| clip"]
  | other_platform =>
      String.concat EmptyString
        [ "printf '%s' '"; text;
          "' | xclip -selection clipboard 2>/dev/null || printf '%s' '"; text;
          "' | xsel --clipboard --input 2>/dev/null" ]
  end.

(** [!v] is false *)
Definition truthy (v : Frame.jsval) : bool :=
  match v with
  | Frame.JUndefined | Frame.JNull => false
  | Frame.JBool b => b
  | Frame.JNum n => negb (n =? 0)
  | Frame.JStr s => negb (String.eqb s EmptyString)
  | Frame.JArr _ | Frame.JObj _ => true
  end.

(** [{ ...last, requestId: uuidv4() }], where [uuid] is what [uuidv4()]
    returns. *)
Definition replayable (last : ForwardedRequest) (uuid : string)
    : ForwardedRequest :=
  {| req_requestId := uuid;
     req_method := req_method last;
     req_path := req_path last;
     req_headers := req_headers last;
     req_body := req_body last |}.

(** What a key press does to the outside. *)
Inductive effect : Type :=
| Core (e : StartTunnel.effect)
| Exec (cmd : string).                  (* exec(cmd, ...) *)

(** How a run of the [async] key handler ends. *)
Inductive outcome : Type :=
| Done (st : StartTunnel.state) (effects : list effect)
| AwaitCopy (st : StartTunnel.state) (effects : list effect)
    (* suspended at [await copyToClipboard(tunnelUrl)] *)
| AwaitReplay (st : StartTunnel.state) (effects : list effect)
    (replayReq : ForwardedRequest).
    (* suspended at [await forwardToLocal(opts.host, port, replayReq)] *)

Definition is_key (key : string) (lower upper : string) : bool :=
  String.eqb key lower || String.eqb key upper.

(** [process.stdin.on('data', async (key) => ...)] up to its first
    suspension.  The tests on [key] exclude one another; after
    [process.exit(0)] nothing runs. *)
Definition on_key (pf : platform) (st : StartTunnel.state) (key uuid : string)
    : outcome :=
  if String.eqb key (String "003"%char EmptyString) || is_key key "q" "Q" then
    let '(st', effects) := StartTunnel.shut_down st 0 in
    Done st' (Core StartTunnel.Terminal :: map Core effects)
  else if is_key key "o" "O" then
    if negb (truthy (StartTunnel.tunnelUrl st)) then
      Done st [Core StartTunnel.Terminal]
    else
      Done st
        [ Exec (openInBrowser pf (Frame.toString (StartTunnel.tunnelUrl st)));
          Core StartTunnel.Terminal ]
  else if is_key key "c" "C" then
    if negb (truthy (StartTunnel.tunnelUrl st)) then
      Done st [Core StartTunnel.Terminal]
    else
      AwaitCopy st
        [Exec (copyToClipboard pf (Frame.toString (StartTunnel.tunnelUrl st)))]
  else if is_key key "r" "R" then
    match last (StartTunnel.recentRequests st) with
    | None => Done st [Core StartTunnel.Terminal]
    | Some latest =>
        AwaitReplay st [Core StartTunnel.Terminal] (replayable latest uuid)
    end
  else Done st [].

(** The rest of the replay branch, run when [forwardToLocal] has resolved:
    the result is printed. *)
Definition on_replayed (st : StartTunnel.state) (replayReq : ForwardedRequest)
    (response : ForwardedResponse) : StartTunnel.state * list effect :=
  (st, [Core StartTunnel.Terminal]).

(** The commands a key press runs. *)
Definition commands (effects : list effect) : list string :=
  omap (fun e => match e with Exec cmd => Some cmd | _ => None end) effects.

Definition effects_of (o : outcome) : list effect :=
  match o with
  | Done _ effects | AwaitCopy _ effects | AwaitReplay _ effects _ => effects
  end.

Definition state_of (o : outcome) : StartTunnel.state :=
  match o with
  | Done st _ | AwaitCopy st _ | AwaitReplay st _ _ => st
  end.

End Keyboard.

(* ================================================================== *)
(** * The command line entry ([program.action]) *)
(* ================================================================== *)

Module CommandLine.

(** The white space [parseInt] skips, ASCII range. *)
Definition is_space (c : ascii) : bool :=
  let n := nat_of_ascii c in
  ((9 <=? n) && (n <=? 13) || (n =? 32))%nat.

Definition digit_value (c : ascii) : option Z :=
  let n := Z.of_nat (nat_of_ascii c) in
  if (48 <=? n) && (n <=? 57) then Some (n - 48) else None.

Fixpoint skip_spaces (s : string) : string :=
  match s with
  | String c rest => if is_space c then skip_spaces rest else s
  | EmptyString => s
  end.

(** The value of the longest prefix of decimal digits; [None] when there
    is no digit ([seen] tells whether one was read already). *)
Fixpoint digits (seen : bool) (acc : Z) (s : string) : option Z :=
  match s with
  | String c rest =>
      match digit_value c with
      | Some d => digits true (10 * acc + d) rest
      | None => if seen then Some acc else None
      end
  | EmptyString => if seen then Some acc else None
  end.

(** [parseInt(s, 10)]; [None] is [NaN]. *)
Definition parseInt10 (s : string) : option Z :=
  match skip_spaces s with
  | String "-" rest =>
      match digits false 0 rest with Some v => Some (- v) | None => None end
  | String "+" rest => digits false 0 rest
  | rest => digits false 0 rest
  end.

(** Whether [s] is empty or begins with a character that is no digit, so
    that a run of digits before it ends there. *)
Definition stops (s : string) : bool :=
  match s with
  | EmptyString => true
  | String c _ =>
      match digit_value c with Some _ => false | None => true end
  end.

(** How the action ends: [process.exit(1)] after an error message, or the
    call [startTunnel(port, options)]. *)
Inductive result : Type :=
| Exit (code : Z)
| StartTunnel_ (port : Z) (host : string).

(** The callback of [.action]: [portArg] is the positional argument,
    [envPort] is [process.env.PORT], [host] is [options.host]. *)
Definition action (portArg envPort : option string) (host : string) : result :=
  let raw := match portArg with Some a => Some a | None => envPort end in
  match raw with
  | None | Some EmptyString => Exit 1
  | Some raw =>
      match parseInt10 raw with
      | None => Exit 1
      | Some port =>
          if (port <? 1) || (65535 <? port) then Exit 1
          else StartTunnel_ port host
      end
  end.

End CommandLine.

(* ================================================================== *)
(** * Observations on runs, used by the properties below *)
(* ================================================================== *)

Module Runs.

(** The sockets a run created, in order. *)
Definition created (effects : list StartTunnel.effect) : list StartTunnel.socket :=
  omap (fun e => match e with StartTunnel.NewWebSocket s => Some s | _ => None end)
    effects.

(** The requests of the forwards that completed during a run, in order. *)
Definition completed (events : list StartTunnel.event) : list ForwardedRequest :=
  omap (fun ev => match ev with
                  | StartTunnel.Forwarded request _ _ => Some request
                  | _ => None
                  end) events.

(** The random numbers the closes of a run drew. *)
Definition randoms (events : list StartTunnel.event) : list Q :=
  omap (fun ev => match ev with StartTunnel.Closed r => Some r | _ => None end)
    events.

(** How often the reconnect timer fired during a run. *)
Definition timers_fired (events : list StartTunnel.event) : nat :=
  length
    (omap (fun ev => match ev with
                     | StartTunnel.ReconnectTimer => Some tt
                     | _ => None
                     end) events).

(** The client uses the socket it created last. *)
Definition newest (st : StartTunnel.state) : Prop :=
  StartTunnel.ws st
  = match StartTunnel.sockets st with
    | O => None
    | S k => Some k
    end.

(** Whether an event of [tunnrl] is a frame of type [registered]. *)
Definition registers (ev : Tunnrl.event) : bool :=
  match ev with
  | Tunnrl.Message (Some msg) =>
      match Frame.prop msg "type" with
      | Some t => Frame.is_string t "registered"
      | None => false
      end
  | _ => false
  end.

(** Whether an event of [tunnrl] is a call of [tunnel.close()]. *)
Definition is_close_call (ev : Tunnrl.event) : bool :=
  match ev with Tunnrl.CloseCalled => true | _ => false end.

(** Whether an effect notifies the listeners of the tunnel of a close or
    an error. *)
Definition notifies (e : Tunnrl.effect) : bool :=
  match e with
  | Tunnrl.EmitClose | Tunnrl.EmitError _ => true
  | _ => false
  end.

(** Whether the timeout of the outbound request fired. *)
Definition is_timeout (ev : Forward.event) : bool :=
  match ev with Forward.ReqTimeout => true | _ => false end.

(** A character [JSON.stringify] writes as it is. *)
Definition plain_char (c : ascii) : bool :=
  let n := N_of_ascii c in
  negb (Ascii.eqb c Json.dquote) && negb (Ascii.eqb c Json.backslash)
  && (32 <=? n)%N.

Fixpoint plain (s : string) : bool :=
  match s with
  | EmptyString => true
  | String c rest => plain_char c && plain rest
  end.

(** Text of ASCII characters: on it [toLowerCase] changes the letters
    [A]..[Z] only, and [Buffer.from] yields one byte for each character. *)
Definition is_ascii (s : string) : bool :=
  forallb (fun c => (N_of_ascii c <? 128)%N) (list_ascii_of_string s).

(** [s] has [sub] as a substring. *)
Definition contains (s sub : string) : Prop :=
  exists pre post, s = String.append pre (String.append sub post).

(** The run of a local service that answers in full: the head of the
    response, its chunks, its end. *)
Definition answered (statusCode : option Z)
    (resHeaders : gmap string header_value) (chunks : list (list byte))
    : list Forward.event :=
  Forward.ResHead statusCode resHeaders
    :: map Forward.ResData chunks ++ [Forward.ResEnd].

End Runs.

(* ================================================================== *)
(** * Properties *)
(* ================================================================== *)

(** ** Replay buffer *)

Section ReplayBufferFacts.
Import ReplayBuffer.

Lemma record_length (buf : list ForwardedRequest) (r : ForwardedRequest) :
  (length buf <= 10)%nat -> (length (record buf r) <= 10)%nat.
Proof.
  intros Hlen. unfold record, Js.push, Js.shift.
  destruct (10 <? length (buf ++ [r]))%nat eqn:Hfull.
  - destruct buf as [|x buf]; simpl in *; [lia|].
    rewrite length_app. simpl. lia.
  - apply Nat.ltb_ge in Hfull. exact Hfull.
Qed.

(** Recording onto the last ten of a history gives the last ten of the
    longer history. *)
Lemma record_window (done : list ForwardedRequest) (r : ForwardedRequest) :
  record (drop (length done - 10) done) r
  = drop (length (done ++ [r]) - 10) (done ++ [r]).
Proof.
  unfold record, Js.push, Js.shift.
  rewrite !length_app, length_drop. simpl.
  destruct (decide (length done < 10)%nat) as [Hlt|Hge].
  - replace (length done - 10)%nat with 0%nat by lia.
    replace (length done + 1 - 10)%nat with 0%nat by lia.
    rewrite !drop_0.
    replace (length done - 0 + 1)%nat with (length done + 1)%nat by lia.
    destruct (10 <? length done + 1)%nat eqn:Hfull; [|done].
    apply Nat.ltb_lt in Hfull. lia.
  - replace (length done - (length done - 10) + 1)%nat with 11%nat by lia.
    simpl.
    replace (length done + 1 - 10)%nat with (S (length done - 10)) by lia.
    rewrite <- drop_app_le by lia.
    generalize (done ++ [r]) (length done - 10)%nat. clear.
    intros l n. revert l. induction n as [|n IH]; intros [|x l]; simpl; auto.
Qed.

Lemma record_all_window_from (done reqs : list ForwardedRequest) :
  fold_left record reqs (drop (length done - 10) done)
  = drop (length (done ++ reqs) - 10) (done ++ reqs).
Proof.
  revert done. induction reqs as [|r reqs IH]; intros done; simpl.
  - by rewrite app_nil_r.
  - rewrite record_window, IH.
    by rewrite <- app_assoc.
Qed.

Lemma record_all_window (reqs : list ForwardedRequest) :
  record_all reqs = drop (length reqs - 10) reqs.
Proof. apply (record_all_window_from [] reqs). Qed.

End ReplayBufferFacts.

(** C9. The replay buffer never holds more than ten entries: after the
    requests [reqs] were recorded in this order it holds exactly the last
    ten of them, in the order of their arrival, and recording onto a
    buffer of at most ten entries leaves at most ten; when eleven distinct
    requests were recorded the first one is gone and the ten others are
    kept in order. *)
Theorem C9_replay_buffer_bound (reqs : list ForwardedRequest) :
  let buf := ReplayBuffer.record_all reqs in
  (length buf <= 10)%nat
  /\ buf = drop (length reqs - 10) reqs
  /\ (forall recent r, (length recent <= 10)%nat ->
        (length (ReplayBuffer.record recent r) <= 10)%nat)
  /\ (NoDup reqs -> length reqs = 11%nat ->
      forall first, head reqs = Some first ->
        (first ∉ buf) /\ buf = tail reqs).
Proof.
  intros buf. subst buf. rewrite record_all_window.
  split; [rewrite length_drop; lia|].
  split; [reflexivity|].
  split; [intros recent r; apply record_length|].
  intros Hnodup Hlen first Hfirst.
  rewrite Hlen. simpl.
  destruct reqs as [|x reqs]; [discriminate|].
  simpl in Hfirst. injection Hfirst as ->. simpl. rewrite drop_0.
  split; [|reflexivity].
  by apply NoDup_cons_1_1.
Qed.

Lemma C9_replay_buffer_bound_witness :
  let reqs :=
    map (fun n => mkRequest (pretty n) "GET" "/" ∅ EmptyString)
      [1; 2; 3; 4; 5; 6; 7; 8; 9; 10; 11] in
  let first := mkRequest "1" "GET" "/" ∅ EmptyString in
  (first ∉ ReplayBuffer.record_all reqs)
  /\ ReplayBuffer.record_all reqs = tail reqs.
Proof.
  intros reqs first.
  destruct (C9_replay_buffer_bound reqs) as (_ & _ & _ & Hfull).
  apply Hfull.
  - apply (NoDup_fmap_1 req_requestId).
    apply (bool_decide_unpack _). vm_compute. exact I.
  - reflexivity.
  - reflexivity.
Defined.

(** ** Transport selection *)

Lemma prefix_app (p q s : string) :
  String.prefix (String.append p q) s = true -> String.prefix p s = true.
Proof.
  revert s. induction p as [|c p IH]; intros s; simpl.
  - by destruct s.
  - destruct s as [|d s]; simpl; [done|].
    destruct (ascii_dec c d); [apply IH|done].
Qed.

(** Whenever the command line copy picks the encrypted transport, the
    library copy does too. *)
Lemma cli_https_implies_api_https (localHost : string) :
  selectTransport Cli localHost = https -> selectTransport Api localHost = https.
Proof.
  unfold selectTransport, Js.startsWith.
  destruct (String.prefix "https://" localHost) eqn:Hcli; [|done].
  intros _. by rewrite (prefix_app "https" "://" localHost Hcli).
Qed.

(** C10. The two copies of [forwardToLocal] do not choose the same
    transport for every host: for the host name [https-proxy.local] the
    library copy takes the encrypted transport and the command line copy
    the plain one. *)
Theorem C10_transport_selection_differs :
  selectTransport Api "https-proxy.local" = https
  /\ selectTransport Cli "https-proxy.local" = http
  /\ ~ (forall localHost,
          selectTransport Api localHost = selectTransport Cli localHost).
Proof.
  split; [reflexivity|]. split; [reflexivity|].
  intros Heq. specialize (Heq "https-proxy.local"). discriminate Heq.
Qed.

(** ** Rounding to binary64 *)

Section Binary64.
Import Js.

Lemma round_half_even_cases (y : Q) :
  round_half_even y = Qfloor y
  \/ (round_half_even y = Qfloor y + 1 /\ (inject_Z (Qfloor y) < y)%Q).
Proof.
  unfold round_half_even.
  destruct (Qcompare_spec (y - inject_Z (Qfloor y)) (1 # 2)) as [He|Hl|Hg].
  - destruct (Z.even (Qfloor y)); [by left|right; split; [reflexivity|lra]].
  - by left.
  - right; split; [reflexivity|lra].
Qed.

Lemma round_half_even_ge (L : Z) (y : Q) :
  (inject_Z L <= y)%Q -> L <= round_half_even y.
Proof.
  intros H. apply Qfloor_resp_le in H. rewrite Qfloor_Z in H.
  destruct (round_half_even_cases y) as [->|[-> _]]; lia.
Qed.

Lemma round_half_even_le (H : Z) (y : Q) :
  (y <= inject_Z H)%Q -> round_half_even y <= H.
Proof.
  intros Hy.
  destruct (round_half_even_cases y) as [->|[-> Hlt]].
  - apply Qfloor_resp_le in Hy. by rewrite Qfloor_Z in Hy.
  - assert (inject_Z (Qfloor y) < inject_Z H)%Q as Hz by lra.
    rewrite <- Zlt_Qlt in Hz. lia.
Qed.

Lemma floor_log2_small (x : Q) :
  (0 < x)%Q -> (x < inject_Z (2 ^ 53))%Q -> floor_log2 x <= 52.
Proof.
  destruct x as [a b]. unfold Qlt, floor_log2. cbn [Qnum Qden inject_Z].
  rewrite !Z.mul_1_r. intros Ha Hx.
  set (d := Z.log2 a - Z.log2 (Z.pos b)).
  destruct (Z_le_gt_dec d 52) as [Hd|Hd].
  - destruct (if 0 <=? d then _ else _); lia.
  - assert (Z.log2 a <= Z.log2 (Z.pos b * 2 ^ 53)) as Hlog
      by (apply Z.log2_le_mono; lia).
    rewrite Z.log2_mul_pow2 in Hlog by lia.
    assert (d = 53) as -> by (unfold d in *; lia).
    change (0 <=? 53) with true. cbv iota.
    destruct (Z.leb_spec (Z.pos b * 2 ^ 53) a); lia.
Qed.

(** Rounding keeps a number between the integers it lies between. *)
Lemma fl_between (l h : Z) (x : Q) :
  0 <= l -> h < 2 ^ 53 ->
  (inject_Z l <= x)%Q -> (x <= inject_Z h)%Q ->
  (inject_Z l <= fl x)%Q /\ (fl x <= inject_Z h)%Q.
Proof.
  intros Hl Hh Hlx Hxh.
  assert (0 <= inject_Z l)%Q as Hl0
    by (change 0%Q with (inject_Z 0); by rewrite <- Zle_Qle).
  unfold fl. destruct (Qcompare_spec x 0) as [He|Hneg|Hpos].
  - split; lra.
  - lra.
  - unfold fl_pos.
    assert (floor_log2 x <= 52) as He.
    { apply floor_log2_small; [exact Hpos|].
      apply Qle_lt_trans with (inject_Z h); [exact Hxh|]. by rewrite <- Zlt_Qlt. }
    set (k := Z.max (floor_log2 x) (-1022) - 52).
    assert (k <= 0) as Hk by (unfold k; lia).
    set (P := 2 ^ (- k)).
    assert (0 < P) as HP by (unfold P; apply Z.pow_pos_nonneg; lia).
    assert (0 < inject_Z P)%Q as HPq
      by (change 0%Q with (inject_Z 0); by rewrite <- Zlt_Qlt).
    assert (~ inject_Z P == 0)%Q as HPn by lra.
    assert (pow2 k == / inject_Z P)%Q as Hinv.
    { unfold pow2. destruct (Z.leb_spec 0 k) as [H0|H0].
      - assert (k = 0) as Hk0 by lia. unfold P. rewrite Hk0. reflexivity.
      - reflexivity. }
    assert (0 < pow2 k)%Q as Hpk by (rewrite Hinv; by apply Qinv_lt_0_compat).
    assert (x / pow2 k == x * inject_Z P)%Q as Hy by (rewrite Hinv; by field).
    assert (l * P <= round_half_even (x / pow2 k)) as H1.
    { apply round_half_even_ge. rewrite Hy, inject_Z_mult.
      apply Qmult_le_compat_r; lra. }
    assert (round_half_even (x / pow2 k) <= h * P) as H2.
    { apply round_half_even_le. rewrite Hy, inject_Z_mult.
      apply Qmult_le_compat_r; lra. }
    rewrite Zle_Qle, inject_Z_mult in H1, H2.
    set (r := inject_Z (round_half_even (x / pow2 k))) in *.
    split.
    + setoid_replace (inject_Z l) with (inject_Z l * inject_Z P * pow2 k)%Q
        using relation Qeq by (rewrite Hinv; by field).
      apply Qmult_le_compat_r; lra.
    + setoid_replace (inject_Z h) with (inject_Z h * inject_Z P * pow2 k)%Q
        using relation Qeq by (rewrite Hinv; by field).
      apply Qmult_le_compat_r; lra.
Qed.

(** The jitter [Math.random() * 500] lies between 0 and 500, both
    included. *)
Lemma jitter_bounds (random : Q) :
  (0 <= random)%Q -> (random < 1)%Q ->
  (0 <= mul random 500)%Q /\ (mul random 500 <= 500)%Q.
Proof.
  intros Hlo Hhi. unfold mul.
  apply (fl_between 0 500); [lia|done| |].
  - change (inject_Z 0) with 0%Q. nra.
  - change (inject_Z 500) with 500%Q. lra.
Qed.

(** The sum [reconnectDelay + jitter], for a delay up to the cap. *)
Lemma delay_sum_bounds (base : Z) (random : Q) :
  0 <= base <= 30000 -> (0 <= random)%Q -> (random < 1)%Q ->
  (inject_Z base <= add (inject_Z base) (mul random 500))%Q
  /\ (add (inject_Z base) (mul random 500) <= inject_Z base + 500)%Q.
Proof.
  intros Hbase Hlo Hhi.
  destruct (jitter_bounds random Hlo Hhi) as [Hj0 Hj500].
  unfold add.
  pose proof (inject_Z_plus base 500) as Hplus.
  change (inject_Z 500) with 500%Q in Hplus.
  destruct (fl_between base (base + 500)
              (inject_Z base + mul random 500)%Q) as [Hge Hle];
    [lia|lia|lra| |].
  - rewrite Hplus. lra.
  - rewrite Hplus in Hle. split; lra.
Qed.

End Binary64.

(** ** Reconnect backoff *)

Section BackoffFacts.
Import StartTunnel.

Lemma base_delay_next (k : nat) :
  Z.min (base_delay k * 2) 30000 = base_delay (S k).
Proof.
  unfold base_delay. rewrite Nat2Z.inj_succ, Z.pow_succ_r by lia.
  assert (0 < 2 ^ Z.of_nat k) by (apply Z.pow_pos_nonneg; lia). lia.
Qed.

Lemma base_delay_bounds (k : nat) : 1000 <= base_delay k <= 30000.
Proof.
  unfold base_delay.
  assert (0 < 2 ^ Z.of_nat k) by (apply Z.pow_pos_nonneg; lia). lia.
Qed.

Lemma base_delay_capped (k : nat) : (5 <= k)%nat -> base_delay k = 30000.
Proof.
  intros Hk. unfold base_delay.
  assert (2 ^ 5 <= 2 ^ Z.of_nat k) by (apply Z.pow_le_mono_r; lia).
  change (2 ^ 5) with 32 in *. lia.
Qed.

(** The delay keeps between the base delay and the base delay plus 500,
    and below the cap. *)
Lemma delay_jitter_bounds (base : Z) (random : Q) :
  0 <= base <= 30000 -> (0 <= random)%Q -> (random < 1)%Q ->
  let d :=
    Js.Math_min (Js.add (inject_Z base) (Js.mul random 500)) 30000 in
  (inject_Z base <= d)%Q /\ (d <= inject_Z base + 500)%Q /\ (d <= 30000)%Q.
Proof.
  intros Hbase Hlo Hhi d. subst d. unfold Js.Math_min.
  assert (Hb : (inject_Z base <= 30000)%Q).
  { change 30000%Q with (inject_Z 30000). rewrite <- Zle_Qle. lia. }
  destruct (delay_sum_bounds base random Hbase Hlo Hhi) as [Hge Hle].
  destruct (Q.min_spec (Js.add (inject_Z base) (Js.mul random 500)) 30000)
    as [[Hlt ->]|[Hle' ->]]; repeat split; lra.
Qed.

(** One unexpected close and the reconnect it schedules, in a client that
    is running. *)
Lemma close_then_reconnect (st : state) (random : Q) :
  shuttingDown st = false -> exited st = None ->
  exists st',
    run st [Closed random; ReconnectTimer]
    = (st', [Terminal;
             SetTimeout
               (Js.Math_min
                  (Js.add (inject_Z (reconnectDelay st)) (Js.mul random 500))
                  30000);
             Terminal; NewWebSocket (sockets st)])
    /\ shuttingDown st' = false /\ exited st' = None
    /\ reconnectDelay st' = Z.min (reconnectDelay st * 2) 30000.
Proof.
  intros Hsd Hex. destruct st; simpl in *; subst.
  eexists. split; [reflexivity|]. simpl. auto.
Qed.

Lemma run_app (st : state) (evs1 evs2 : list event) :
  run st (evs1 ++ evs2)
  = let '(st1, effs1) := run st evs1 in
    let '(st2, effs2) := run st1 evs2 in
    (st2, effs1 ++ effs2).
Proof.
  revert st. induction evs1 as [|ev evs1 IH]; intros st; simpl.
  - by destruct (run st evs2).
  - destruct (step st ev) as [st' effs]. rewrite IH.
    destruct (run st' evs1) as [st1 effs1].
    destruct (run st1 evs2) as [st2 effs2].
    by rewrite app_assoc.
Qed.

Lemma delays_app (effs1 effs2 : list effect) :
  delays (effs1 ++ effs2) = delays effs1 ++ delays effs2.
Proof. unfold delays. apply omap_app. Qed.

(** Consecutive closes from the k-th on. *)
Lemma closes_from (k : nat) (randoms : list Q) (st : state) :
  shuttingDown st = false -> exited st = None ->
  reconnectDelay st = base_delay k ->
  let '(st', effs) := run st (unexpected_closes randoms) in
  delays effs = backoff_delays k randoms
  /\ reconnectDelay st' = base_delay (k + length randoms).
Proof.
  revert k st. induction randoms as [|r randoms IH]; intros k st Hsd Hex Hrd.
  - simpl. split; [done|]. by rewrite Nat.add_0_r.
  - change (unexpected_closes (r :: randoms))
      with ([Closed r; ReconnectTimer] ++ unexpected_closes randoms).
    rewrite run_app.
    destruct (close_then_reconnect st r Hsd Hex)
      as (st1 & -> & Hsd1 & Hex1 & Hrd1).
    rewrite Hrd, base_delay_next in Hrd1.
    specialize (IH (S k) st1 Hsd1 Hex1 Hrd1).
    destruct (run st1 (unexpected_closes randoms)) as [st2 effs2].
    destruct IH as [IHd IHr]. rewrite delays_app, IHd, IHr, Hrd.
    split; [reflexivity|]. simpl. f_equal. lia.
Qed.

Lemma backoff_delays_lookup (k i : nat) (randoms : list Q) (d : Q) :
  backoff_delays k randoms !! i = Some d ->
  exists r, randoms !! i = Some r
    /\ d = Js.Math_min
             (Js.add (inject_Z (base_delay (k + i))) (Js.mul r 500)) 30000.
Proof.
  revert k i. induction randoms as [|r randoms IH]; intros k i; simpl.
  - by destruct i.
  - destruct i as [|i]; simpl.
    + intros [= <-]. exists r. by rewrite Nat.add_0_r.
    + intros Hd. destruct (IH _ _ Hd) as (r' & Hr' & ->).
      exists r'. split; [done|]. by rewrite Nat.add_succ_r.
Qed.

End BackoffFacts.

(** C1, as the code has it.  In a running client, each unexpected close
    arms the reconnect timer with [min(reconnectDelay + jitter, 30000)],
    where [jitter = Math.random() * 500], and then doubles
    [reconnectDelay] up to 30000.  After an open, the k-th consecutive
    close (k from 0) therefore waits [min(base k + jitter, 30000)] with
    [base k = min(1000 * 2^k, 30000)], that is 1000, 2000, 4000, 8000,
    16000, 30000, 30000, ...  The product and the sum are binary64
    operations: the delay exceeds its base by 500 at most, a bound the
    rounding of the sum lets it reach, and, the sum being capped, by
    nothing once the base is 30000. *)
Theorem C1_reconnect_backoff (st : StartTunnel.state) (randoms : list Q) :
  StartTunnel.shuttingDown st = false -> StartTunnel.exited st = None ->
  Forall (fun r => 0 <= r /\ r < 1)%Q randoms ->
  let after :=
    StartTunnel.run st (StartTunnel.Opened :: StartTunnel.unexpected_closes randoms) in
  let waits := StartTunnel.delays (snd after) in
  waits = StartTunnel.backoff_delays 0 randoms
  /\ StartTunnel.reconnectDelay (fst after) = StartTunnel.base_delay (length randoms)
  /\ (forall k d, waits !! k = Some d ->
        (inject_Z (StartTunnel.base_delay k) <= d)%Q
        /\ (d <= inject_Z (StartTunnel.base_delay k) + 500)%Q
        /\ (d <= 30000)%Q
        /\ ((5 <= k)%nat -> (d == 30000)%Q))
  /\ map StartTunnel.base_delay (seq 0 7)
     = [1000; 2000; 4000; 8000; 16000; 30000; 30000]
  /\ (forall k, (5 <= k)%nat -> StartTunnel.base_delay k = 30000)
  /\ (forall random,
        snd (StartTunnel.scheduleReconnect st random)
        = [StartTunnel.SetTimeout
             (Js.Math_min
                (Js.add (inject_Z (StartTunnel.reconnectDelay st))
                   (Js.mul random 500))
                30000)]
        /\ StartTunnel.reconnectDelay (fst (StartTunnel.scheduleReconnect st random))
           = Z.min (StartTunnel.reconnectDelay st * 2) 30000)
  /\ (let random := (1 - (1 # 9007199254740992))%Q in
      (0 <= random)%Q /\ (random < 1)%Q
      /\ (Js.mul random 500 < 500)%Q
      /\ (Js.Math_min
            (Js.add (inject_Z (StartTunnel.base_delay 0)) (Js.mul random 500))
            30000 == 1500)%Q).
Proof.
  intros Hsd Hex Hrandoms after waits. subst waits after.
  change (StartTunnel.Opened :: StartTunnel.unexpected_closes randoms)
    with ([StartTunnel.Opened] ++ StartTunnel.unexpected_closes randoms).
  rewrite run_app.
  assert (Hopen : StartTunnel.run st [StartTunnel.Opened]
                  = (fst (StartTunnel.on_open st), [StartTunnel.Terminal])).
  { cbn [StartTunnel.run]. unfold StartTunnel.step. rewrite Hex. reflexivity. }
  rewrite Hopen.
  pose proof (closes_from 0 randoms (fst (StartTunnel.on_open st)) Hsd Hex
                eq_refl) as Hrun.
  destruct (StartTunnel.run (fst (StartTunnel.on_open st))
              (StartTunnel.unexpected_closes randoms)) as [st' effs].
  destruct Hrun as [Hd Hr]. cbn [fst snd].
  rewrite delays_app. simpl (StartTunnel.delays [StartTunnel.Terminal]).
  rewrite app_nil_l, Hd.
  split; [reflexivity|]. split; [exact Hr|].
  split; [|split; [reflexivity|split; [exact base_delay_capped|split; [done|]]]].
  - intros k d Hk.
    destruct (backoff_delays_lookup 0 k randoms d Hk) as (r & Hr' & ->).
    simpl (0 + k)%nat.
    pose proof (Forall_lookup_1 _ _ _ _ Hrandoms Hr') as [Hlo Hhi].
    pose proof (base_delay_bounds k) as [Hbase Hcap].
    destruct (delay_jitter_bounds (StartTunnel.base_delay k) r
                ltac:(lia) Hlo Hhi) as (Hge & Hle & Hmax).
    split; [exact Hge|]. split; [exact Hle|]. split; [exact Hmax|].
    intros Hk5. rewrite (base_delay_capped k Hk5) in Hge, Hmax |- *.
    change (inject_Z 30000) with 30000%Q in *. lra.
  - split; [by vm_compute|]. split; [by vm_compute|].
    split; [by vm_compute|]. by vm_compute.
Qed.

Lemma C1_reconnect_backoff_witness :
  StartTunnel.delays
    (snd (StartTunnel.run (fst (StartTunnel.connect StartTunnel.initial))
            (StartTunnel.Opened
               :: StartTunnel.unexpected_closes [1 # 2; 0; 1 # 4]%Q)))
  = StartTunnel.backoff_delays 0 [1 # 2; 0; 1 # 4]%Q.
Proof.
  refine (proj1 (C1_reconnect_backoff (fst (StartTunnel.connect StartTunnel.initial))
                   [1 # 2; 0; 1 # 4]%Q eq_refl eq_refl _)).
  repeat constructor; unfold Qle, Qlt; simpl; lia.
Defined.

(** C1, as the specification words it, fails once the delay has reached
    its cap: after an open and five closes [reconnectDelay] is 30000; with
    [Math.random()] returning 1/2 the next close waits exactly 30000 ms,
    not [min(30000, 30000) + 250]. *)
Lemma C1_jitter_dropped_at_cap :
  let st :=
    fst (StartTunnel.run (fst (StartTunnel.connect StartTunnel.initial))
           (StartTunnel.Opened
              :: StartTunnel.unexpected_closes (repeat (1 # 2)%Q 5))) in
  StartTunnel.reconnectDelay st = 30000
  /\ StartTunnel.shuttingDown st = false
  /\ exists d,
       StartTunnel.delays (snd (StartTunnel.step st (StartTunnel.Closed (1 # 2)))) = [d]
       /\ (d == 30000)%Q
       /\ ~ (d == StartTunnel.spec_delay (StartTunnel.reconnectDelay st)
                    (Js.mul (1 # 2) 500))%Q
       /\ ~ (forall st0 random,
               StartTunnel.shuttingDown st0 = false ->
               StartTunnel.exited st0 = None ->
               (0 <= random)%Q -> (random < 1)%Q ->
               exists d0,
                 StartTunnel.delays
                   (snd (StartTunnel.step st0 (StartTunnel.Closed random)))
                 = [d0]
                 /\ (d0 == StartTunnel.spec_delay
                              (StartTunnel.reconnectDelay st0)
                              (Js.mul random 500))%Q).
Proof.
  split; [vm_compute; reflexivity|]. split; [vm_compute; reflexivity|].
  eexists. split; [vm_compute; reflexivity|].
  split; [vm_compute; reflexivity|].
  split; [vm_compute; discriminate|].
  intros Hclaim.
  destruct (Hclaim
              (StartTunnel.mkState 30000 5 false (Some 5%nat) 6 []
                 (Frame.JStr EmptyString) None)
              (1 # 2)%Q eq_refl eq_refl)
    as (d0 & Hd0 & Heq); [by vm_compute|by vm_compute|].
  vm_compute in Hd0. injection Hd0 as <-.
  vm_compute in Heq. discriminate Heq.
Qed.

(** ** Base64 *)

Section Base64.
Import Buffer.

Lemma digit_check :
  forallb
    (fun k =>
       let v := Z.of_nat k in
       negb (Ascii.eqb (sextet_char v) "="%char)
       && match unbase64 (sextet_char v) with
          | Some w => w =? v
          | None => false
          end)
    (seq 0 64) = true.
Proof. vm_compute. reflexivity. Qed.

Lemma sextet_char_digit (v : Z) :
  0 <= v < 64 ->
  Ascii.eqb (sextet_char v) "="%char = false
  /\ unbase64 (sextet_char v) = Some v.
Proof.
  intros Hv. pose proof digit_check as Hall.
  rewrite forallb_forall in Hall.
  specialize (Hall (Z.to_nat v)). rewrite Z2Nat.id in Hall by lia.
  assert (Hin : In (Z.to_nat v) (seq 0 64)) by (apply in_seq; lia).
  specialize (Hall Hin). cbn zeta in Hall.
  apply andb_true_iff in Hall as [Hne Hval].
  apply negb_true_iff in Hne. split; [exact Hne|].
  destruct (unbase64 (sextet_char v)) as [w|]; [|done].
  apply Z.eqb_eq in Hval. by subst.
Qed.

Lemma sextets_digit (v : Z) (s : string) :
  0 <= v < 64 -> sextets (String (sextet_char v) s) = v :: sextets s.
Proof.
  intros Hv. destruct (sextet_char_digit v Hv) as [Hne Hval].
  simpl. by rewrite Hne, Hval.
Qed.

Lemma octet_range (b : byte) : 0 <= octet b < 256.
Proof. unfold octet. pose proof (Byte.to_N_bounded b). lia. Qed.

Lemma byte_of_octet (b : byte) (n : Z) :
  n mod 256 = octet b -> byte_of_Z n = b.
Proof.
  intros Hn. unfold byte_of_Z. rewrite Hn. unfold octet. rewrite N2Z.id.
  by rewrite Byte.of_to_N.
Qed.

Lemma list_ind3 {A} (P : list A -> Prop) :
  P [] -> (forall a, P [a]) -> (forall a b, P [a; b]) ->
  (forall a b c l, P l -> P (a :: b :: c :: l)) ->
  forall l, P l.
Proof.
  intros H0 H1 H2 H3 l.
  assert (H : P l /\ (forall a, P (a :: l)) /\ (forall a b, P (a :: b :: l))).
  { induction l as [|x l (IH0 & IH1 & IH2)]; [by auto|].
    split; [apply IH1|]. split; [intros a; apply IH2|].
    intros a b. by apply H3. }
  apply H.
Qed.

(** Decoding what [toString('base64')] wrote gives the bytes back. *)
Lemma from_base64_toString (buf : list byte) :
  from_base64 (toString_base64 buf) = buf.
Proof.
  unfold from_base64. induction buf as [|a|a b|a b c rest IH] using list_ind3.
  - reflexivity.
  - pose proof (octet_range a) as Ha. cbn [toString_base64].
    rewrite !sextets_digit by (Z.div_mod_to_equations; lia).
    simpl. f_equal. apply byte_of_octet. Z.div_mod_to_equations; lia.
  - pose proof (octet_range a) as Ha. pose proof (octet_range b) as Hb.
    cbn [toString_base64].
    rewrite !sextets_digit by (Z.div_mod_to_equations; lia).
    simpl. f_equal; [|f_equal]; apply byte_of_octet;
      Z.div_mod_to_equations; lia.
  - pose proof (octet_range a) as Ha. pose proof (octet_range b) as Hb.
    pose proof (octet_range c) as Hc.
    cbn [toString_base64].
    rewrite !sextets_digit by (Z.div_mod_to_equations; lia).
    cbn [of_sextets]. rewrite IH.
    f_equal; [|f_equal; [|f_equal]]; apply byte_of_octet;
      Z.div_mod_to_equations; lia.
Qed.
End Base64.

(** ** The local forwarder *)

Section ForwardFacts.
Import Forward.

Lemma includes_spec (arr : list string) (x : string) :
  Js.includes arr x = true <-> x ∈ arr.
Proof.
  unfold Js.includes. rewrite existsb_exists, list_elem_of_In. split.
  - intros (y & Hin & Heq). apply String.eqb_eq in Heq. by subst.
  - intros Hin. exists x. split; [done|apply String.eqb_refl].
Qed.

(** The loop over the request's headers keeps exactly the fields whose
    lower-cased name is not hop-by-hop and whose name is not
    [__proto__]. *)
Lemma copy_headers_lookup (hs : gmap string header_value) (key : string) :
  copy_headers hs !! key
  = if Js.includes HOP_BY_HOP (Js.toLowerCase key)
       || String.eqb key "__proto__"
    then None else hs !! key.
Proof.
  unfold copy_headers. revert key.
  apply (map_fold_weak_ind
           (fun (r m : gmap string header_value) =>
              forall key,
                r !! key
                = if Js.includes HOP_BY_HOP (Js.toLowerCase key)
                     || String.eqb key "__proto__"
                  then None else m !! key)).
  - intros key. rewrite !lookup_empty. by destruct (_ || _).
  - intros i x m r Hfresh IH key. cbn zeta. unfold assign.
    destruct (Js.includes HOP_BY_HOP (Js.toLowerCase i)
              || String.eqb i "__proto__") eqn:Hi.
    + assert (Hskip :
        (if Js.includes HOP_BY_HOP (Js.toLowerCase i) then r
         else if String.eqb i "__proto__" then r else <[i := x]> r) = r).
      { destruct (Js.includes HOP_BY_HOP (Js.toLowerCase i)); [done|].
        simpl in Hi. by rewrite Hi. }
      rewrite Hskip, IH.
      destruct (Js.includes HOP_BY_HOP (Js.toLowerCase key)
                || String.eqb key "__proto__") eqn:Hkey; [done|].
      rewrite lookup_insert_ne; [done|]. intros ->. congruence.
    + apply orb_false_elim in Hi as [Hi1 Hi2]. rewrite Hi1, Hi2.
      destruct (decide (i = key)) as [->|Hne].
      * rewrite !lookup_insert_eq. by rewrite Hi1, Hi2.
      * rewrite !lookup_insert_ne by done. apply IH.
Qed.

End ForwardFacts.




Section ForwardRuns.
Import Forward.
Context (p : program) (localHost : string) (localPort : Z)
        (request : ForwardedRequest).

(** The promise of a forward is settled by [resolve] alone. *)
Lemma handle_not_rejected (st : state) (ev : event) :
  Js.is_rejected (promise st) = false ->
  Js.is_rejected (promise (handle p localHost localPort request st ev)) = false.
Proof.
  intros Hst.
  destruct ev, (localRes st) as [[? ?]|] eqn:Hres; simpl; rewrite ?Hres;
    simpl; try done; by destruct (promise st).
Qed.

Lemma handle_fulfilled (st : state) (ev : event) :
  Js.is_rejected (promise st) = false ->
  Js.is_fulfilled (promise (handle p localHost localPort request st ev))
  = Js.is_fulfilled (promise st)
    || match ev with
       | ReqError | ReqTimeout => true
       | ResEnd | ResError => head_seen st
       | _ => false
       end.
Proof.
  intros Hst. unfold head_seen.
  destruct ev, (localRes st) as [[? ?]|] eqn:Hres; simpl; rewrite ?Hres;
    simpl; rewrite ?orb_false_r; try done;
    destruct (promise st); simpl in *; done.
Qed.

Lemma handle_head_seen (st : state) (ev : event) :
  head_seen (handle p localHost localPort request st ev)
  = head_seen st || match ev with ResHead _ _ => true | _ => false end.
Proof.
  unfold head_seen.
  destruct ev, (localRes st) as [[? ?]|] eqn:Hres; simpl; rewrite ?Hres;
    simpl; done.
Qed.

(** The promise after a run: never rejected, and fulfilled exactly when it
    was before or the run completes the exchange. *)
Lemma run_settles (events : list event) (st : state) :
  Js.is_rejected (promise st) = false ->
  let st' := fold_left (handle p localHost localPort request) events st in
  Js.is_rejected (promise st') = false
  /\ Js.is_fulfilled (promise st')
     = Js.is_fulfilled (promise st) || completes (head_seen st) events.
Proof.
  revert st. induction events as [|ev events IH]; intros st Hst; simpl.
  - split; [done|]. by rewrite orb_false_r.
  - destruct (IH _ (handle_not_rejected st ev Hst)) as [Hrej Hful].
    split; [exact Hrej|].
    rewrite Hful, handle_fulfilled, handle_head_seen by done.
    destruct ev; simpl; rewrite ?orb_false_r, ?orb_true_r; try done;
      by rewrite ?orb_assoc.
Qed.

Lemma handle_correlated (st : state) (ev : event) :
  correlated request st ->
  correlated request (handle p localHost localPort request st ev).
Proof.
  unfold correlated. intros Hst.
  destruct ev, (localRes st) as [[? ?]|] eqn:Hres; simpl; rewrite ?Hres;
    simpl; try done;
    destruct (promise st); simpl in *; try done; by destruct p.
Qed.

Lemma run_correlated (events : list event) (st : state) :
  correlated request st ->
  correlated request (fold_left (handle p localHost localPort request) events st).
Proof.
  revert st. induction events as [|ev events IH]; intros st Hst; simpl;
    [done|]. apply IH, handle_correlated, Hst.
Qed.

(** A fulfilled promise keeps its response. *)
Lemma run_keeps_response (events : list event) (st : state)
    (response : ForwardedResponse) :
  promise st = Js.Fulfilled response ->
  promise (fold_left (handle p localHost localPort request) events st)
  = Js.Fulfilled response.
Proof.
  revert st. induction events as [|ev events IH]; intros st Hst; simpl;
    [done|].
  apply IH.
  destruct ev, (localRes st) as [[? ?]|] eqn:Hres; simpl; rewrite ?Hres;
    simpl; rewrite ?Hst; done.
Qed.

(** A rejected promise stays rejected: [resolve] does nothing to it. *)
Lemma run_keeps_rejection (events : list event) (st : state) (err : string) :
  promise st = Js.Rejected err ->
  promise (fold_left (handle p localHost localPort request) events st)
  = Js.Rejected err.
Proof.
  revert st. induction events as [|ev events IH]; intros st Hst; simpl;
    [done|].
  apply IH.
  destruct ev, (localRes st) as [[? ?]|] eqn:Hres; simpl; rewrite ?Hres;
    simpl; rewrite ?Hst; done.
Qed.

(** When no call throws, the executor is [start]. *)
Lemma executor_returns (n : node) :
  throws request n = false ->
  executor p localHost localPort request n
  = (Some (fst (start p localHost localPort request)),
     snd (start p localHost localPort request)).
Proof.
  unfold throws, executor. intros Hn.
  apply orb_false_elim in Hn as [Hn Hend].
  apply orb_false_elim in Hn as [Hreq Hwrite].
  by rewrite Hreq, Hwrite, Hend.
Qed.

(** When a call throws, the executor leaves the promise rejected. *)
Lemma executor_throws (n : node) :
  throws request n = true ->
  promise (snd (executor p localHost localPort request n))
  = Js.Rejected (thrown n).
Proof.
  unfold throws, executor. intros Hn.
  destruct (request_throws n); [done|].
  destruct ((0 <? length (Buffer.from_base64 (req_body request)))%nat
            && write_throws n); [done|].
  simpl in Hn. by rewrite Hn.
Qed.

Lemma forward_with_returns (n : node) (events : list event) :
  throws request n = false ->
  forwardToLocal_with n p localHost localPort request events
  = forwardToLocal p localHost localPort request events.
Proof.
  intros Hn. unfold forwardToLocal_with, forwardToLocal.
  by rewrite (executor_returns n Hn).
Qed.

Lemma forward_with_throws (n : node) (events : list event) :
  throws request n = true ->
  forwardToLocal_with n p localHost localPort request events
  = Js.Rejected (thrown n).
Proof.
  intros Hn. unfold forwardToLocal_with.
  apply run_keeps_rejection, executor_throws, Hn.
Qed.

(** A path Node refuses makes the executor throw. *)
Lemma invalid_path_throws (n : node) :
  invalid_path (req_path request) = true ->
  agrees (request_options localHost localPort request) n ->
  throws request n = true.
Proof.
  intros Hpath Hn. unfold throws. by rewrite (Hn Hpath).
Qed.

(** What each callback that ends the exchange does to a pending promise. *)
Lemma handle_pending (st : state) :
  promise st = Js.Pending ->
  promise (handle p localHost localPort request st ReqError)
  = Js.Fulfilled (connect_error p localHost localPort request)
  /\ promise (handle p localHost localPort request st ReqTimeout)
     = Js.Fulfilled (timeout_response p request)
  /\ (forall statusCode resHeaders,
        localRes st = Some (statusCode, resHeaders) ->
        promise (handle p localHost localPort request st ResError)
        = Js.Fulfilled (response_stream_error p request)
        /\ promise (handle p localHost localPort request st ResEnd)
           = Js.Fulfilled
               (success_response request statusCode resHeaders (chunks st))).
Proof.
  destruct st as [pr res ch d]. simpl. intros ->.
  split; [reflexivity|]. split; [reflexivity|].
  intros statusCode resHeaders ->. simpl. done.
Qed.

End ForwardRuns.

(** C2 fails on the code.  The executor of [forwardToLocal] calls
    [transport.request], [localReq.write] and [localReq.end] with nothing
    to catch what they throw; when one of them throws, the promise is
    rejected and stays so, whatever the local service does afterwards.
    Node throws for a path with a blank in it, [/a b] for one.  When the
    three calls return, the promise is never rejected, and it is
    fulfilled exactly when the exchange with the local service has come
    to an end. *)
Theorem C2_forward_rejects_when_a_call_throws (p : program)
    (localHost : string) (localPort : Z) (request : ForwardedRequest)
    (n : Forward.node) (events : list Forward.event) :
  let result :=
    Forward.forwardToLocal_with n p localHost localPort request events in
  (Forward.throws request n = true ->
   result = Js.Rejected (Forward.thrown n)
   /\ Js.is_fulfilled result = false)
  /\ (Forward.invalid_path (req_path request) = true ->
      Forward.agrees (Forward.request_options localHost localPort request) n ->
      result = Js.Rejected (Forward.thrown n))
  /\ Forward.invalid_path "/a b" = true
  /\ (Forward.throws request n = false ->
      Js.is_rejected result = false
      /\ Js.is_fulfilled result = Forward.completes false events
      /\ forall later response,
           result = Js.Fulfilled response ->
           Forward.forwardToLocal_with n p localHost localPort request
             (events ++ later)
           = Js.Fulfilled response).
Proof.
  intros result. subst result.
  split; [|split; [|split; [reflexivity|]]].
  - intros Hn. by rewrite forward_with_throws.
  - intros Hpath Hn. apply forward_with_throws.
    by apply (invalid_path_throws localHost localPort).
  - intros Hn. rewrite forward_with_returns by done.
    unfold Forward.forwardToLocal.
    destruct (run_settles p localHost localPort request events
                (snd (Forward.start p localHost localPort request)) eq_refl)
      as [Hrej Hful].
    split; [exact Hrej|]. split; [exact Hful|].
    intros later response Hdone. rewrite forward_with_returns by done.
    unfold Forward.forwardToLocal. rewrite fold_left_app.
    by apply run_keeps_response.
Qed.

Lemma C2_forward_rejects_when_a_call_throws_witness :
  let request := mkRequest "r1" "GET" "/a b" ∅ EmptyString in
  let n := Forward.mkNode true false false "ERR_UNESCAPED_CHARACTERS" in
  Forward.forwardToLocal_with n Api "localhost" 3000 request
    [Forward.ResHead (Some 200) ∅; Forward.ResEnd]
  = Js.Rejected "ERR_UNESCAPED_CHARACTERS"
  /\ Js.is_fulfilled
       (Forward.forwardToLocal_with (Forward.mkNode false false false EmptyString)
          Api "localhost" 3000 (mkRequest "r1" "GET" "/ab" ∅ EmptyString)
          [Forward.ResHead (Some 200) ∅; Forward.ResEnd])
     = true.
Proof.
  intros request n. split.
  - refine (proj1 (proj2 (C2_forward_rejects_when_a_call_throws Api "localhost"
                            3000 request n _)) eq_refl _).
    intros _. reflexivity.
  - refine (proj1 (proj2 (proj2 (proj2 (proj2
              (C2_forward_rejects_when_a_call_throws Api "localhost" 3000
                 (mkRequest "r1" "GET" "/ab" ∅ EmptyString)
                 (Forward.mkNode false false false EmptyString)
                 [Forward.ResHead (Some 200) ∅; Forward.ResEnd]))) eq_refl))).
Defined.

(** C4 fails on the code where C2 does: when a call of the executor
    throws, [forwardToLocal] yields no response at all.  When the calls
    return, every exchange that comes to an end yields a response, and it
    carries the [requestId] of the request; each callback that ends the
    exchange resolves a pending promise with a response of its own, and
    each of the four responses carries that id.  Whatever Node does, a
    response [forwardToLocal] resolves with carries the id. *)
Theorem C4_response_correlates_unless_a_call_throws (p : program)
    (localHost : string) (localPort : Z) (request : ForwardedRequest)
    (n : Forward.node) :
  (forall events response,
     Forward.forwardToLocal_with n p localHost localPort request events
     = Js.Fulfilled response ->
     res_requestId response = req_requestId request)
  /\ (Forward.throws request n = false ->
      forall events,
        Forward.completes false events = true ->
        exists response,
          Forward.forwardToLocal_with n p localHost localPort request events
          = Js.Fulfilled response
          /\ res_requestId response = req_requestId request)
  /\ (forall st,
        Forward.promise st = Js.Pending ->
        Forward.promise
          (Forward.handle p localHost localPort request st Forward.ReqError)
        = Js.Fulfilled (Forward.connect_error p localHost localPort request)
        /\ Forward.promise
             (Forward.handle p localHost localPort request st Forward.ReqTimeout)
           = Js.Fulfilled (Forward.timeout_response p request)
        /\ (forall statusCode resHeaders,
              Forward.localRes st = Some (statusCode, resHeaders) ->
              Forward.promise
                (Forward.handle p localHost localPort request st Forward.ResError)
              = Js.Fulfilled (Forward.response_stream_error p request)
              /\ Forward.promise
                   (Forward.handle p localHost localPort request st Forward.ResEnd)
                 = Js.Fulfilled
                     (Forward.success_response request statusCode resHeaders
                        (Forward.chunks st))))
  /\ (forall statusCode resHeaders chunks,
        res_requestId
          (Forward.success_response request statusCode resHeaders chunks)
        = req_requestId request)
  /\ res_requestId (Forward.connect_error p localHost localPort request)
     = req_requestId request
  /\ res_requestId (Forward.timeout_response p request) = req_requestId request
  /\ res_requestId (Forward.response_stream_error p request)
     = req_requestId request
  /\ (Forward.throws request n = true ->
      forall events,
        Forward.forwardToLocal_with n p localHost localPort request events
        = Js.Rejected (Forward.thrown n))
  /\ (Forward.invalid_path (req_path request) = true ->
      Forward.agrees (Forward.request_options localHost localPort request) n ->
      forall events response,
        Forward.forwardToLocal_with n p localHost localPort request events
        <> Js.Fulfilled response).
Proof.
  assert (Hid : forall events response,
            Forward.forwardToLocal p localHost localPort request events
            = Js.Fulfilled response ->
            res_requestId response = req_requestId request).
  { intros events response Hres.
    pose proof (run_correlated p localHost localPort request events
                  (snd (Forward.start p localHost localPort request)) I) as Hc.
    unfold Forward.correlated in Hc. unfold Forward.forwardToLocal in Hres.
    by rewrite Hres in Hc. }
  split; [|split; [|split; [|split; [|split; [|split; [|split; [|split]]]]]]].
  - intros events response.
    destruct (Forward.throws request n) eqn:Hn.
    + by rewrite forward_with_throws.
    + rewrite forward_with_returns by done. apply Hid.
  - intros Hn events Hdone. rewrite forward_with_returns by done.
    destruct (run_settles p localHost localPort request events
                (snd (Forward.start p localHost localPort request)) eq_refl)
      as [_ Hful].
    assert (Hf : Js.is_fulfilled
                   (Forward.forwardToLocal p localHost localPort request events)
                 = Forward.completes false events) by exact Hful.
    clear Hful. rename Hf into Hful. rewrite Hdone in Hful.
    destruct (Forward.forwardToLocal p localHost localPort request events)
      as [|response|] eqn:Hres; try discriminate Hful.
    exists response. split; [reflexivity|]. by apply (Hid events).
  - apply handle_pending.
  - done.
  - by destruct p.
  - by destruct p.
  - by destruct p.
  - intros Hn events. by apply forward_with_throws.
  - intros Hpath Hn events response.
    rewrite forward_with_throws
      by (by apply (invalid_path_throws localHost localPort)).
    discriminate.
Qed.

Lemma C4_response_correlates_unless_a_call_throws_witness :
  let request := mkRequest "req-42" "POST" "/echo" ∅ "aGVsbG8=" in
  let n := Forward.mkNode false false false EmptyString in
  let events :=
    [ Forward.ResHead (Some 200) ∅;
      Forward.ResData (Buffer.from_string "hello");
      Forward.ResEnd ] in
  (exists response,
     Forward.forwardToLocal_with n Api "localhost" 3000 request events
     = Js.Fulfilled response
     /\ res_requestId response = "req-42")
  /\ Forward.forwardToLocal_with
       (Forward.mkNode false true false "ERR_HTTP_TRAILER_INVALID")
       Api "localhost" 3000 request events
     = Js.Rejected "ERR_HTTP_TRAILER_INVALID".
Proof.
  intros request n events. split.
  - exact (proj1 (proj2 (C4_response_correlates_unless_a_call_throws Api
                           "localhost" 3000 request n))
             eq_refl events eq_refl).
  - exact (proj1 (proj2 (proj2 (proj2 (proj2 (proj2 (proj2 (proj2
             (C4_response_correlates_unless_a_call_throws Api "localhost" 3000
                request
                (Forward.mkNode false true false "ERR_HTTP_TRAILER_INVALID")))))))))
             eq_refl events).
Defined.



(** ** The message handlers *)

Section HandlerFacts.

Lemma api_sent_app (effs1 effs2 : list Tunnrl.effect) :
  Tunnrl.sent (effs1 ++ effs2) = Tunnrl.sent effs1 ++ Tunnrl.sent effs2.
Proof. apply omap_app. Qed.

Lemma cli_sent_app (effs1 effs2 : list StartTunnel.effect) :
  StartTunnel.sent (effs1 ++ effs2) = StartTunnel.sent effs1 ++ StartTunnel.sent effs2.
Proof. apply omap_app. Qed.

(** Only the completion of a forward sends a frame. *)
Lemma api_step_sent (st : Tunnrl.state) (ev : Tunnrl.event) :
  Tunnrl.sent (snd (Tunnrl.step st ev)) = Tunnrl.answers [ev].
Proof.
  destruct ev as [frame|request response duration rs| |err|rs| |]; simpl.
  - unfold Tunnrl.on_message. repeat case_match; simplify_eq; done.
  - by destruct (is_open rs).
  - unfold Tunnrl.on_close. by case_match.
  - unfold Tunnrl.on_error. by case_match.
  - by destruct (is_open rs).
  - done.
  - unfold Tunnrl.close. by case_match.
Qed.

Lemma api_run_sent (st : Tunnrl.state) (events : list Tunnrl.event) :
  Tunnrl.sent (snd (Tunnrl.run st events)) = Tunnrl.answers events.
Proof.
  revert st. induction events as [|ev events IH]; intros st; [done|].
  cbn [Tunnrl.run]. pose proof (api_step_sent st ev) as Hstep.
  destruct (Tunnrl.step st ev) as [st' effs].
  specialize (IH st'). destruct (Tunnrl.run st' events) as [st'' effs'].
  cbn [snd] in *. rewrite api_sent_app, Hstep, IH.
  change (ev :: events) with ([ev] ++ events).
  unfold Tunnrl.answers. by rewrite flat_map_app.
Qed.

Lemma cli_step_sent (st : StartTunnel.state) (ev : StartTunnel.event) :
  StartTunnel.sent (snd (StartTunnel.step st ev))
  = match StartTunnel.exited st, ev, StartTunnel.ws st with
    | None, StartTunnel.Forwarded _ response readyState, Some s =>
        if is_open (readyState s) then [(s, response)] else []
    | _, _, _ => []
    end.
Proof.
  unfold StartTunnel.step. destruct (StartTunnel.exited st); [by destruct ev|].
  destruct ev as [|frame|request response rs|random| |rs| | |]; simpl.
  - by destruct (StartTunnel.ws st).
  - unfold StartTunnel.on_message, StartTunnel.shut_down, StartTunnel.close_ws.
    repeat case_match; simplify_eq; done.
  - destruct (StartTunnel.ws st) as [s|]; [|done]. by destruct (is_open (rs s)).
  - unfold StartTunnel.on_close, StartTunnel.scheduleReconnect.
    by destruct (StartTunnel.shuttingDown st).
  - unfold StartTunnel.on_error. by destruct (StartTunnel.shuttingDown st).
  - destruct (StartTunnel.ws st) as [s|]; [|done]. by destruct (is_open (rs s)).
  - unfold StartTunnel.on_reconnect_timer, StartTunnel.connect.
    by destruct (StartTunnel.shuttingDown st).
  - unfold StartTunnel.close_ws. by destruct (StartTunnel.ws st).
  - unfold StartTunnel.close_ws. by destruct (StartTunnel.ws st).
Qed.

Lemma cli_run_sent (st : StartTunnel.state) (events : list StartTunnel.event) :
  Forall
    (fun '(s, response) =>
       exists request readyState,
         In (StartTunnel.Forwarded request response readyState) events
         /\ readyState s = OPEN)
    (StartTunnel.sent (snd (StartTunnel.run st events))).
Proof.
  revert st. induction events as [|ev events IH]; intros st; [constructor|].
  cbn [StartTunnel.run]. pose proof (cli_step_sent st ev) as Hstep.
  destruct (StartTunnel.step st ev) as [st' effs].
  specialize (IH st'). destruct (StartTunnel.run st' events) as [st'' effs'].
  cbn [snd] in *. rewrite cli_sent_app, Hstep. apply Forall_app. split.
  - destruct (StartTunnel.exited st); [constructor|].
    destruct ev as [|frame|request response rs|random| |rs| | |];
      try (destruct (StartTunnel.ws st); constructor).
    destruct (StartTunnel.ws st) as [s|]; [|constructor].
    destruct (rs s) eqn:Hrs; simpl; constructor; [|constructor].
    exists request, rs. split; [by left|done].
  - eapply Forall_impl; [exact IH|].
    intros [s response] (request & rs & Hin & Hopen).
    exists request, rs. split; [by right|done].
Qed.

End HandlerFacts.

(** The response of a completed forward is sent only when the socket the
    handler reads is [OPEN] at that moment, and then once; otherwise
    nothing is sent and the handler ends normally.  Over any run of either
    client, the frames sent are responses of forwards that completed while
    that socket was open. *)
Lemma responses_only_on_open_sockets :
  (forall st request response duration readyState,
     fst (Tunnrl.on_forwarded st request response duration readyState) = st
     /\ Tunnrl.sent
          (snd (Tunnrl.on_forwarded st request response duration readyState))
        = if is_open readyState then [response] else [])
  /\ (forall st events,
        Tunnrl.sent (snd (Tunnrl.run st events))
        = Tunnrl.answers events)
  /\ (forall st request response readyState,
        StartTunnel.sent
          (snd (StartTunnel.on_forwarded st request response readyState))
        = match StartTunnel.ws st with
          | Some s => if is_open (readyState s) then [(s, response)] else []
          | None => []
          end)
  /\ (forall st events,
        Forall
          (fun '(s, response) =>
             exists request readyState,
               In (StartTunnel.Forwarded request response readyState) events
               /\ readyState s = OPEN)
          (StartTunnel.sent (snd (StartTunnel.run st events)))).
Proof.
  split; [|split; [|split]].
  - intros st request response duration rs. split; [reflexivity|].
    simpl. by destruct (is_open rs).
  - exact api_run_sent.
  - intros st request response rs. simpl.
    destruct (StartTunnel.ws st) as [s|]; [|done]. by destruct (is_open (rs s)).
  - exact cli_run_sent.
Qed.

(** C8 fails on the command line client.  Its message handler sends the
    response on the socket the variable [ws] holds when the forward
    completes, and [connect] assigns that variable anew at every
    reconnect.  A request that arrived on socket 0, the only socket there
    was, is therefore answered on socket 1 when socket 0 closed and the
    client reconnected while the forward was under way: the channel of
    the request is closed, and the response is sent all the same.  The handler of the library reads the
    socket it was registered on, and sends only when that one is open. *)
Theorem C8_cli_answers_on_a_later_socket (response : ForwardedResponse) :
  let request := mkRequest "r1" "GET" "/" ∅ EmptyString in
  let frame :=
    Some (Frame.JObj
            [ ("type", Frame.JStr "request");
              ("requestId", Frame.JStr "r1");
              ("method", Frame.JStr "GET");
              ("path", Frame.JStr "/");
              ("headers", Frame.JObj []);
              ("body", Frame.JStr EmptyString) ]) in
  let readyState (s : StartTunnel.socket) :=
    match s with O => CLOSED | S _ => OPEN end in
  let arrival :=
    fst (StartTunnel.run (fst (StartTunnel.connect StartTunnel.initial))
           [StartTunnel.Opened]) in
  let completion :=
    fst (StartTunnel.run arrival
           [ StartTunnel.Closed (1 # 2); StartTunnel.ReconnectTimer;
             StartTunnel.Opened ]) in
  StartTunnel.ws arrival = Some 0%nat
  /\ StartTunnel.sockets arrival = 1%nat
  /\ StartTunnel.on_message arrival frame = Awaiting arrival [] request
  /\ StartTunnel.ws completion = Some 1%nat
  /\ readyState 0%nat = CLOSED
  /\ StartTunnel.sent
       (snd (StartTunnel.step completion
               (StartTunnel.Forwarded request response readyState)))
     = [(1%nat, response)]
  /\ (forall st request response readyState,
        StartTunnel.sent
          (snd (StartTunnel.on_forwarded st request response readyState))
        = match StartTunnel.ws st with
          | Some s => if is_open (readyState s) then [(s, response)] else []
          | None => []
          end)
  /\ (forall st request response duration readyState,
        Tunnrl.sent
          (snd (Tunnrl.on_forwarded st request response duration readyState))
        = if is_open readyState then [response] else []).
Proof.
  intros request frame readyState arrival completion.
  split; [by vm_compute|]. split; [by vm_compute|]. split; [by vm_compute|].
  split; [by vm_compute|]. split; [reflexivity|].
  split; [by vm_compute|]. split.
  - intros st request' response' rs. simpl.
    destruct (StartTunnel.ws st) as [s|]; [|done]. by destruct (is_open (rs s)).
  - intros st request' response' duration rs. simpl. by destruct (is_open rs).
Qed.

(** C5, as the code has it.  A frame on which [JSON.parse] throws, and a
    frame that parses to a value other than [null] whose [type] is none of
    [error], [registered] and [request], is dropped by both message
    handlers: they return at once, with no effect and the state as it
    was.  A frame whose [type] is [error] or [registered] is acted on
    whatever else it holds: the socket is closed, respectively the tunnel
    is taken as registered. *)
Theorem C5_unhandled_frames_discarded (frame : Frame.parsed) :
  Frame.unhandled frame = true ->
  (forall st,
     Tunnrl.on_message st frame = Returned st []
     /\ Tunnrl.step st (Tunnrl.Message frame) = (st, []))
  /\ (forall st,
        StartTunnel.on_message st frame = Returned st []
        /\ StartTunnel.step st (StartTunnel.Message frame) = (st, []))
  /\ (forall msg,
        Frame.prop msg "type" = Some (Frame.JStr "error") ->
        (forall st, exists st',
           Tunnrl.on_message st (Some msg)
           = Returned st' [Tunnrl.ClearConnectTimeout; Tunnrl.WsClose])
        /\ (forall st, exists st',
              StartTunnel.on_message st (Some msg)
              = Returned st'
                  (StartTunnel.Terminal
                     :: StartTunnel.close_ws st ++ [StartTunnel.ProcessExit 1])))
  /\ (forall msg,
        Frame.prop msg "type" = Some (Frame.JStr "registered") ->
        (forall st, exists st',
           Tunnrl.on_message st (Some msg)
           = Returned st' [Tunnrl.ClearConnectTimeout]
           /\ Tunnrl.resolved st' = true)
        /\ (forall st, exists st',
              StartTunnel.on_message st (Some msg)
              = Returned st' [StartTunnel.Terminal])).
Proof.
  intros Hframe.
  assert (Hapi : forall st, Tunnrl.on_message st frame = Returned st []).
  { intros st. unfold Tunnrl.on_message. destruct frame as [msg|]; [|done].
    simpl in Hframe. destruct (Frame.prop msg "type") as [t|]; [|done].
    apply negb_true_iff in Hframe.
    destruct (Frame.is_string t "error"); [done|].
    destruct (Frame.is_string t "registered"); [done|].
    by destruct (Frame.is_string t "request"). }
  assert (Hcli : forall st, StartTunnel.on_message st frame = Returned st []).
  { intros st. unfold StartTunnel.on_message. destruct frame as [msg|]; [|done].
    simpl in Hframe. destruct (Frame.prop msg "type") as [t|]; [|done].
    apply negb_true_iff in Hframe.
    destruct (Frame.is_string t "error"); [done|].
    destruct (Frame.is_string t "registered"); [done|].
    by destruct (Frame.is_string t "request"). }
  split; [|split; [|split]].
  - intros st. split; [apply Hapi|]. simpl. by rewrite Hapi.
  - intros st. split; [apply Hcli|]. unfold StartTunnel.step. rewrite Hcli.
    by destruct (StartTunnel.exited st).
  - intros msg Htype. split; intros st;
      unfold Tunnrl.on_message, StartTunnel.on_message; rewrite Htype; simpl;
      eexists; reflexivity.
  - intros msg Htype. split; intros st;
      unfold Tunnrl.on_message, StartTunnel.on_message; rewrite Htype; simpl;
      eexists; try split; reflexivity.
Qed.

Lemma C5_unhandled_frames_discarded_witness :
  let frame :=
    Some (Frame.JObj [("type", Frame.JStr "response");
                      ("requestId", Frame.JStr "r1")]) in
  Tunnrl.on_message Tunnrl.initial frame = Returned Tunnrl.initial []
  /\ StartTunnel.on_message StartTunnel.initial None
     = Returned StartTunnel.initial [].
Proof.
  intros frame. split.
  - apply (proj1 (C5_unhandled_frames_discarded frame eq_refl)).
  - apply (proj1 (proj2 (C5_unhandled_frames_discarded None eq_refl))).
Defined.

(** C5, as the specification words it, fails: the frame
    [{"type":"error"}] has the shape of no message variant (an [error]
    needs its [message]), yet the library handler closes the socket and
    rejects the pending construction call, and the command line handler
    closes the socket and exits with status 1. *)
Lemma C5_malformed_error_frame_is_acted_on :
  let frame := Some (Frame.JObj [("type", Frame.JStr "error")]) in
  Frame.well_shaped frame = false
  /\ Tunnrl.on_message Tunnrl.initial frame
     = Returned
         (Tunnrl.set_result Tunnrl.initial
            (Js.Rejected "tunnrl: undefined"))
         [Tunnrl.ClearConnectTimeout; Tunnrl.WsClose]
  /\ Tunnrl.on_message Tunnrl.initial frame
     <> Returned Tunnrl.initial []
  /\ snd (StartTunnel.step (fst (StartTunnel.connect StartTunnel.initial))
            (StartTunnel.Message frame))
     = [StartTunnel.Terminal; StartTunnel.WsClose 0%nat; StartTunnel.ProcessExit 1]
  /\ ~ (forall st frame',
          Frame.well_shaped frame' = false ->
          Tunnrl.on_message st frame' = Returned st []).
Proof.
  intros frame.
  split; [reflexivity|]. split; [reflexivity|].
  split; [discriminate|]. split; [reflexivity|].
  intros Hclaim. specialize (Hclaim Tunnrl.initial frame eq_refl).
  discriminate Hclaim.
Qed.

Section FatalError.

Lemma api_rejected_stays (reason : string) (events : list Tunnrl.event)
    (st : Tunnrl.state) :
  Tunnrl.result st = Js.Rejected reason ->
  Tunnrl.result (fst (Tunnrl.run st events)) = Js.Rejected reason.
Proof.
  revert st. induction events as [|ev events IH]; intros st Hst; [done|].
  cbn [Tunnrl.run].
  assert (Hstep : Tunnrl.result (fst (Tunnrl.step st ev))
                  = Js.Rejected reason).
  { destruct ev as [frame|request response duration rs| |err|rs| |]; simpl;
      try done.
    - unfold Tunnrl.on_message.
      repeat case_match; simplify_eq; simpl; rewrite ?Hst; done.
    - unfold Tunnrl.on_close. case_match; simpl; rewrite ?Hst; done.
    - unfold Tunnrl.on_error. case_match; simpl; rewrite ?Hst; done.
    - by rewrite Hst.
    - unfold Tunnrl.close. by case_match. }
  destruct (Tunnrl.step st ev) as [st' effs]. specialize (IH st' Hstep).
  by destruct (Tunnrl.run st' events).
Qed.

(** Once [shuttingDown] is set, no handler opens a socket or arms the
    reconnect timer, and the flag stays set. *)
Lemma cli_step_shutting_down (st : StartTunnel.state) (ev : StartTunnel.event) :
  StartTunnel.shuttingDown st = true ->
  StartTunnel.shuttingDown (fst (StartTunnel.step st ev)) = true
  /\ Forall (fun e => StartTunnel.reconnects e = false)
       (snd (StartTunnel.step st ev)).
Proof.
  intros Hsd. unfold StartTunnel.step.
  destruct (StartTunnel.exited st); [by split|].
  destruct ev as [|frame|request response rs|random| |rs| | |]; simpl.
  - split; [done|]. by repeat constructor.
  - unfold StartTunnel.on_message, StartTunnel.shut_down, StartTunnel.close_ws.
    repeat case_match; simplify_eq; simpl; split; try done;
      by repeat constructor.
  - split; [done|]. repeat case_match; by repeat constructor.
  - unfold StartTunnel.on_close. rewrite Hsd. by split.
  - unfold StartTunnel.on_error. rewrite Hsd. by split.
  - split; [done|]. repeat case_match; by repeat constructor.
  - unfold StartTunnel.on_reconnect_timer. rewrite Hsd. by split.
  - unfold StartTunnel.close_ws. split; [done|].
    destruct (StartTunnel.ws st); by repeat constructor.
  - unfold StartTunnel.close_ws. split; [done|].
    destruct (StartTunnel.ws st); by repeat constructor.
Qed.

Lemma cli_run_shutting_down (events : list StartTunnel.event)
    (st : StartTunnel.state) :
  StartTunnel.shuttingDown st = true ->
  Forall (fun e => StartTunnel.reconnects e = false)
    (snd (StartTunnel.run st events)).
Proof.
  revert st. induction events as [|ev events IH]; intros st Hsd;
    [constructor|].
  cbn [StartTunnel.run].
  destruct (cli_step_shutting_down st ev Hsd) as [Hsd' Heffs].
  destruct (StartTunnel.step st ev) as [st' effs]. specialize (IH st' Hsd').
  destruct (StartTunnel.run st' events) as [st'' effs'].
  apply Forall_app. by split.
Qed.

End FatalError.

(** C6. An [error] message of the relay that arrives before registration
    makes the construction call fail: the handler of [tunnrl] closes the
    socket and rejects the promise with ["tunnrl: "] followed by the
    relay's text, and nothing that happens later changes that.  The
    command line client prints the error, sets [shuttingDown], closes the
    socket and exits with status 1; from then on (as in any state with
    [shuttingDown] set) no socket is opened and no reconnect timer armed. *)
Theorem C6_relay_error_is_fatal (msg : Frame.jsval) (text : string) :
  Frame.prop msg "type" = Some (Frame.JStr "error") ->
  Frame.prop msg "message" = Some (Frame.JStr text) ->
  (forall st,
     Tunnrl.resolved st = false -> Tunnrl.result st = Js.Pending ->
     exists st',
       Tunnrl.on_message st (Some msg)
       = Returned st' [Tunnrl.ClearConnectTimeout; Tunnrl.WsClose]
       /\ Tunnrl.result st'
          = Js.Rejected (String.append "tunnrl: " text)
       /\ forall events,
            Tunnrl.result (fst (Tunnrl.run st' events))
            = Js.Rejected (String.append "tunnrl: " text))
  /\ (forall st,
        exists st',
          StartTunnel.on_message st (Some msg)
          = Returned st'
              (StartTunnel.Terminal
                 :: StartTunnel.close_ws st ++ [StartTunnel.ProcessExit 1])
          /\ StartTunnel.shuttingDown st' = true
          /\ StartTunnel.exited st' = Some 1
          /\ forall events,
               Forall (fun e => StartTunnel.reconnects e = false)
                 (snd (StartTunnel.run st' events)))
  /\ (forall st events,
        StartTunnel.shuttingDown st = true ->
        Forall (fun e => StartTunnel.reconnects e = false)
          (snd (StartTunnel.run st events))).
Proof.
  intros Htype Hmessage. split; [|split].
  - intros st Hres Hpending.
    unfold Tunnrl.on_message. rewrite Htype, Hmessage. simpl.
    rewrite Hres, Hpending. simpl. eexists. split; [reflexivity|].
    split; [reflexivity|]. intros events. by apply api_rejected_stays.
  - intros st. unfold StartTunnel.on_message. rewrite Htype. simpl.
    eexists. split; [reflexivity|]. split; [reflexivity|].
    split; [reflexivity|]. intros events. by apply cli_run_shutting_down.
  - intros st events Hsd. by apply cli_run_shutting_down.
Qed.

Lemma C6_relay_error_is_fatal_witness :
  let msg :=
    Frame.JObj [("type", Frame.JStr "error");
                ("message", Frame.JStr "quota exceeded")] in
  exists st',
    Tunnrl.on_message Tunnrl.initial (Some msg)
    = Returned st' [Tunnrl.ClearConnectTimeout; Tunnrl.WsClose]
    /\ Tunnrl.result st' = Js.Rejected "tunnrl: quota exceeded".
Proof.
  intros msg.
  destruct (proj1 (C6_relay_error_is_fatal msg "quota exceeded"
                     eq_refl eq_refl) Tunnrl.initial eq_refl eq_refl)
    as (st' & Hret & Hrej & _).
  exists st'. split; [exact Hret|exact Hrej].
Defined.

(* ================================================================== *)
(** * Further properties of the code *)
(* ================================================================== *)

(** ** The local forwarder, continued *)

Section ForwardMore.
Import Forward.
Context (p : program) (localHost : string) (localPort : Z)
        (request : ForwardedRequest).

(** Chunks are appended in the order of their arrival and the end of the
    response resolves with all of them. *)
Lemma chunks_then_end (more : list (list byte)) (st : state)
    (statusCode : option Z) (resHeaders : gmap string header_value) :
  promise st = Js.Pending ->
  localRes st = Some (statusCode, resHeaders) ->
  promise
    (fold_left (handle p localHost localPort request)
       (map ResData more ++ [ResEnd]) st)
  = Js.Fulfilled
      (success_response request statusCode resHeaders (chunks st ++ more)).
Proof.
  revert st. induction more as [|chunk more IH]; intros st Hpending Hres.
  - simpl. rewrite Hres, Hpending. simpl. by rewrite app_nil_r.
  - cbn [map app fold_left]. rewrite IH.
    + simpl. rewrite Hres. simpl. unfold Js.push. by rewrite <- app_assoc.
    + simpl. by rewrite Hres.
    + simpl. by rewrite Hres.
Qed.

Lemma destroyed_by_timeout (events : list event) (st : state) :
  destroyed (fold_left (handle p localHost localPort request) events st)
  = destroyed st || existsb Runs.is_timeout events.
Proof.
  revert st. induction events as [|ev events IH]; intros st; simpl.
  - by rewrite orb_false_r.
  - rewrite IH.
    destruct ev, (localRes st) as [[? ?]|] eqn:Hres; simpl; rewrite ?Hres;
      simpl; rewrite ?orb_true_r; done.
Qed.

End ForwardMore.

(** X1. A local service that answers in full: whatever the request, the
    forward resolves with the request's id, the status of the local
    response (200 when it has none), its headers, and a body that decodes
    to the chunks in the order they arrived; the size the command line
    client prints is the number of bytes received. *)
Theorem forward_answered_in_full (p : program) (localHost : string)
    (localPort : Z) (request : ForwardedRequest) (statusCode : option Z)
    (resHeaders : gmap string header_value) (chunks : list (list byte)) :
  exists response,
    Forward.forwardToLocal p localHost localPort request
      (Runs.answered statusCode resHeaders chunks)
    = Js.Fulfilled response
    /\ res_requestId response = req_requestId request
    /\ res_status response
       = match statusCode with Some s => s | None => 200 end
    /\ res_headers response = resHeaders
    /\ Buffer.from_base64 (res_body response) = List.concat chunks
    /\ Display.sizeBytes response = Z.of_nat (length (List.concat chunks)).
Proof.
  exists (Forward.success_response request statusCode resHeaders chunks).
  split.
  - unfold Forward.forwardToLocal, Runs.answered. cbn [fold_left].
    apply (chunks_then_end p localHost localPort request chunks
             (Forward.handle p localHost localPort request
                (snd (Forward.start p localHost localPort request))
                (Forward.ResHead statusCode resHeaders))
             statusCode resHeaders); reflexivity.
  - split; [reflexivity|]. split; [reflexivity|]. split; [reflexivity|].
    assert (Hbody :
      Buffer.from_base64
        (res_body
           (Forward.success_response request statusCode resHeaders chunks))
      = List.concat chunks) by apply from_base64_toString.
    split; [exact Hbody|]. unfold Display.sizeBytes. by rewrite Hbody.
Qed.



(** X3. The outbound request is destroyed by the timeout and by nothing
    else: after any run of events it is destroyed exactly when the
    timeout has fired. *)
Theorem forward_destroyed_only_by_timeout (p : program) (localHost : string)
    (localPort : Z) (request : ForwardedRequest)
    (events : list Forward.event) :
  Forward.destroyed
    (fold_left (Forward.handle p localHost localPort request) events
       (snd (Forward.start p localHost localPort request)))
  = existsb Runs.is_timeout events.
Proof.
  by rewrite destroyed_by_timeout.
Qed.

Section JsonText.
Import Json.

Lemma append_cons (c : ascii) (a b : string) :
  String.append (String c a) b = String c (String.append a b).
Proof. reflexivity. Qed.

Lemma append_nil_r (a : string) : String.append a EmptyString = a.
Proof.
  induction a as [|x a IH]; [done|]. rewrite append_cons. by f_equal.
Qed.

Lemma append_assoc (a b c : string) :
  String.append (String.append a b) c = String.append a (String.append b c).
Proof.
  induction a as [|x a IH]; [done|]. rewrite !append_cons. by f_equal.
Qed.

Lemma quote_chars_app (a b : string) :
  quote_chars (String.append a b)
  = String.append (quote_chars a) (quote_chars b).
Proof.
  induction a as [|x a IH]; [done|].
  rewrite append_cons. cbn [quote_chars]. rewrite IH.
  symmetry. apply append_assoc.
Qed.

Lemma quote_char_plain (c : ascii) :
  Runs.plain_char c = true -> quote_char c = String c EmptyString.
Proof.
  unfold Runs.plain_char, quote_char. intros Hc.
  apply andb_true_iff in Hc as [Hc Hn]. apply andb_true_iff in Hc as [Hq Hb].
  apply negb_true_iff in Hq, Hb. rewrite Hq, Hb.
  apply N.leb_le in Hn.
  repeat match goal with
    | |- context [(?a =? ?b)%N] =>
        destruct (N.eqb_spec a b); [lia|]
    end.
  destruct (N.ltb_spec (N_of_ascii c) 32); [lia|done].
Qed.

(** A string without quotes, backslashes and control characters is
    written as it is. *)
Lemma quote_chars_plain (s : string) :
  Runs.plain s = true -> quote_chars s = s.
Proof.
  induction s as [|c s IH]; [done|]. cbn [Runs.plain quote_chars].
  intros Hs. apply andb_true_iff in Hs as [Hc Hs].
  by rewrite quote_char_plain, IH.
Qed.

Lemma contains_refl (s : string) : Runs.contains s s.
Proof. exists EmptyString, EmptyString. by rewrite append_nil_r. Qed.

Lemma contains_cons (c : ascii) (s sub : string) :
  Runs.contains s sub -> Runs.contains (String c s) sub.
Proof. intros (pre & post & ->). by exists (String c pre), post. Qed.

Lemma contains_app_l (a s sub : string) :
  Runs.contains s sub -> Runs.contains (String.append a s) sub.
Proof.
  intros (pre & post & ->). exists (String.append a pre), post.
  by rewrite append_assoc.
Qed.

Lemma contains_app_r (s b sub : string) :
  Runs.contains s sub -> Runs.contains (String.append s b) sub.
Proof.
  intros (pre & post & ->). exists pre, (String.append post b).
  by rewrite !append_assoc.
Qed.

End JsonText.

(** X4. A target that cannot be reached, the calls of the executor having
    returned: the forward resolves with status 502, the JSON content type
    and a body that decodes to JSON text naming the target as
    [host:port], provided [host:port] is ASCII text with no character
    that JSON escapes. *)
Theorem forward_unreachable_names_target (p : program) (localHost : string)
    (localPort : Z) (request : ForwardedRequest) (n : Forward.node) :
  Runs.plain (Forward.host_port localHost localPort) = true ->
  Runs.is_ascii (Forward.host_port localHost localPort) = true ->
  Forward.throws request n = false ->
  exists response,
    Forward.forwardToLocal_with n p localHost localPort request
      [Forward.ReqError]
    = Js.Fulfilled response
    /\ res_status response = 502
    /\ res_requestId response = req_requestId request
    /\ res_headers response = {[ "content-type" := HStr "application/json" ]}
    /\ Runs.contains
         (string_of_list_byte (Buffer.from_base64 (res_body response)))
         (String.append localHost (String ":" (pretty localPort))).
Proof.
  intros Hplain _ Hn.
  exists (Forward.connect_error p localHost localPort request).
  split; [by rewrite forward_with_returns|].
  split; [by destruct p|]. split; [by destruct p|]. split; [by destruct p|].
  change (String.append localHost (String ":" (pretty localPort)))
    with (Forward.host_port localHost localPort).
  destruct p; cbn [Forward.connect_error Forward.makeErrorResponse res_body];
    revert Hplain; generalize (Forward.host_port localHost localPort);
    intros hp Hplain;
    rewrite from_base64_toString; unfold Buffer.from_string;
    rewrite string_of_list_byte_of_string;
    unfold Json.stringify; cbn [Json.members]; unfold Json.quote;
    rewrite 2!quote_chars_app, (quote_chars_plain _ Hplain).
  - apply contains_cons, contains_app_r, contains_app_l, contains_cons,
      contains_cons, contains_app_r, contains_app_l, contains_app_r,
      contains_refl.
  - apply contains_cons, contains_app_r, contains_app_l, contains_cons,
      contains_app_l, contains_cons, contains_app_l, contains_cons,
      contains_cons, contains_app_r, contains_app_l, contains_app_r,
      contains_refl.
Qed.

Lemma forward_unreachable_names_target_witness :
  Runs.contains
    (string_of_list_byte
       (Buffer.from_base64
          (res_body
             (Forward.connect_error Api "127.0.0.1" 8080
                (mkRequest "r1" "GET" "/" ∅ EmptyString)))))
    "127.0.0.1:8080".
Proof.
  destruct (forward_unreachable_names_target Api "127.0.0.1" 8080
              (mkRequest "r1" "GET" "/" ∅ EmptyString)
              (Forward.mkNode false false false EmptyString)
              eq_refl eq_refl eq_refl)
    as (response & Hres & _ & _ & _ & Hbody).
  injection Hres as <-. exact Hbody.
Defined.

(** X5. The loop that copies the request's headers never changes or
    invents a field: its result is a part of the request's headers; a
    second pass drops nothing more; headers of ASCII names, none of them
    hop-by-hop or [__proto__], are copied whole; and the copy never has a
    field [__proto__]. *)
Theorem copy_headers_keeps_values (hs : gmap string header_value) :
  Forward.copy_headers hs ⊆ hs
  /\ Forward.copy_headers (Forward.copy_headers hs) = Forward.copy_headers hs
  /\ ((forall key, is_Some (hs !! key) ->
         Runs.is_ascii key = true
         /\ (Js.toLowerCase key ∉ Forward.HOP_BY_HOP)
         /\ key <> "__proto__") ->
      Forward.copy_headers hs = hs)
  /\ Forward.copy_headers hs !! "__proto__" = None.
Proof.
  split; [|split; [|split]].
  - apply map_subseteq_spec. intros key v. rewrite copy_headers_lookup.
    by destruct (_ || _).
  - apply map_eq. intros key. rewrite !copy_headers_lookup.
    by destruct (_ || _).
  - intros Hnone. apply map_eq. intros key. rewrite copy_headers_lookup.
    destruct (hs !! key) eqn:Hkey; [|by destruct (orb _ _)].
    destruct (Hnone key) as (_ & Hhop & Hproto); [by eexists|].
    apply String.eqb_neq in Hproto. rewrite Hproto, orb_false_r.
    destruct (Js.includes Forward.HOP_BY_HOP (Js.toLowerCase key)) eqn:Hinc;
      [|done].
    by apply includes_spec in Hinc.
  - by rewrite copy_headers_lookup.
Qed.

Lemma copy_headers_keeps_values_witness :
  let hs : gmap string header_value :=
    <["Accept" := HStr "text/plain"]> (<["X-Id" := HList ["a"; "b"]]> ∅) in
  Forward.copy_headers hs = hs.
Proof.
  intros hs. apply (copy_headers_keeps_values hs).
  intros key [v Hkey]. subst hs.
  apply lookup_insert_Some in Hkey as [[<- _]|[_ Hkey]].
  { split; [reflexivity|]. split; [|discriminate].
    apply (bool_decide_unpack _). vm_compute. exact I. }
  apply lookup_insert_Some in Hkey as [[<- _]|[_ Hkey]].
  { split; [reflexivity|]. split; [|discriminate].
    apply (bool_decide_unpack _). vm_compute. exact I. }
  by rewrite lookup_empty in Hkey.
Defined.

(** ** The tunnel handle and the life cycle of [tunnrl] *)

Section TunnelLifeCycle.
Import Tunnrl.

Lemma close_again (n : nat) (st : state) :
  closed_ st = true -> run st (replicate n CloseCalled) = (st, []).
Proof.
  intros Hclosed. induction n as [|n IH]; [done|].
  cbn [replicate run step]. unfold close. rewrite Hclosed. by rewrite IH.
Qed.

(** A registered tunnel stays registered and its promise fulfilled. *)
Lemma registered_stays (events : list event) (st : state) :
  resolved st = true -> result st = Js.Fulfilled tt ->
  resolved (fst (run st events)) = true
  /\ result (fst (run st events)) = Js.Fulfilled tt.
Proof.
  revert st. induction events as [|ev events IH]; intros st Hres Hful;
    [done|].
  cbn [run].
  assert (Hstep : resolved (fst (step st ev)) = true
                  /\ result (fst (step st ev)) = Js.Fulfilled tt).
  { destruct ev as [frame|request response duration rs| |err|rs| |]; simpl;
      try done.
    - unfold on_message.
      repeat case_match; simplify_eq; simpl; rewrite ?Hful; done.
    - unfold on_close. by rewrite Hres.
    - unfold on_error. by rewrite Hres.
    - by rewrite Hful.
    - unfold close. by case_match. }
  destruct (step st ev) as [st' effs]. destruct Hstep as [Hres' Hful'].
  specialize (IH st' Hres' Hful').
  by destruct (run st' events).
Qed.

Lemma url_kept (events : list event) (st : state) :
  forallb (fun ev => negb (Runs.registers ev)) events = true ->
  url (fst (run st events)) = url st.
Proof.
  revert st. induction events as [|ev events IH]; intros st Hevents;
    [done|].
  cbn [forallb] in Hevents. apply andb_true_iff in Hevents as [Hev Hevents].
  apply negb_true_iff in Hev. cbn [run].
  assert (Hstep : url (fst (step st ev)) = url st).
  { destruct ev as [frame|request response duration rs| |err|rs| |]; simpl;
      try done.
    - unfold on_message. simpl in Hev.
      repeat case_match; simplify_eq; simpl; done.
    - unfold on_close. by case_match.
    - unfold on_error. by case_match.
    - unfold close. by case_match. }
  destruct (step st ev) as [st' effs]. specialize (IH st' Hevents).
  destruct (run st' events). simpl in *. congruence.
Qed.

(** X8. Nothing is reported to the listeners of the tunnel before it is
    registered: as long as no [registered] frame has arrived and
    [close()] has not been called, no [close] and no [error] event is
    emitted, whatever frames, closes, errors, pings and timeouts
    occur. *)
Theorem quiet_until_registered (events : list event) (st : state) :
  resolved st = false ->
  forallb (fun ev => negb (Runs.registers ev) && negb (Runs.is_close_call ev))
    events = true ->
  resolved (fst (run st events)) = false
  /\ Forall (fun e => Runs.notifies e = false) (snd (run st events)).
Proof.
  revert st. induction events as [|ev events IH]; intros st Hres Hevents;
    [by split|].
  cbn [forallb] in Hevents. apply andb_true_iff in Hevents as [Hev Hevents].
  apply andb_true_iff in Hev as [Hreg Hcall].
  apply negb_true_iff in Hreg, Hcall. cbn [run].
  assert (Hstep : resolved (fst (step st ev)) = false
                  /\ Forall (fun e => Runs.notifies e = false)
                       (snd (step st ev))).
  { destruct ev as [frame|request response duration rs| |err|rs| |]; simpl;
      try done.
    - unfold on_message. simpl in Hreg.
      repeat case_match; simplify_eq; simpl; split; try done;
        by repeat constructor.
    - split; [done|]. destruct (is_open rs); by repeat constructor.
    - unfold on_close. rewrite Hres. split; [done|]. by repeat constructor.
    - unfold on_error. rewrite Hres. split; [done|]. by repeat constructor.
    - split; [done|]. destruct (is_open rs); by repeat constructor.
    - split; [done|]. by repeat constructor. }
  destruct (step st ev) as [st' effs]. destruct Hstep as [Hres' Heffs].
  destruct (IH st' Hres' Hevents) as [IHres IHeffs].
  destruct (run st' events) as [st'' effs']. simpl in *.
  split; [done|]. by apply Forall_app.
Qed.

End TunnelLifeCycle.

(** X6. [Tunnel.close()] acts once: the first call closes the socket and
    emits [close], every further call does nothing.  The socket's own
    close event is not covered by that guard: on a registered tunnel
    [close()] followed by the close of the socket emits [close] twice. *)
Theorem tunnel_close_acts_once (st : Tunnrl.state) (n : nat) :
  (Tunnrl.closed_ st = false ->
   let after := Tunnrl.run st (replicate (S n) Tunnrl.CloseCalled) in
   snd after = [Tunnrl.WsClose; Tunnrl.EmitClose]
   /\ Tunnrl.closed_ (fst after) = true
   /\ Tunnrl.result (fst after) = Tunnrl.result st
   /\ Tunnrl.url (fst after) = Tunnrl.url st)
  /\ (Tunnrl.closed_ st = true ->
      Tunnrl.run st (replicate n Tunnrl.CloseCalled) = (st, []))
  /\ (Tunnrl.closed_ st = false -> Tunnrl.resolved st = true ->
      snd (Tunnrl.run st [Tunnrl.CloseCalled; Tunnrl.Closed])
      = [Tunnrl.WsClose; Tunnrl.EmitClose; Tunnrl.EmitClose]).
Proof.
  split; [|split].
  - intros Hopen after. subst after.
    assert (Hstep :
      Tunnrl.step st Tunnrl.CloseCalled
      = ({| Tunnrl.url := Tunnrl.url st; Tunnrl.closed_ := true;
            Tunnrl.resolved := Tunnrl.resolved st;
            Tunnrl.result := Tunnrl.result st |},
         [Tunnrl.WsClose; Tunnrl.EmitClose])).
    { cbn [Tunnrl.step]. unfold Tunnrl.close. by rewrite Hopen. }
    cbn [replicate Tunnrl.run]. rewrite Hstep.
    rewrite close_again by reflexivity. by simpl.
  - apply close_again.
  - intros Hopen Hres. destruct st as [u c r res]. simpl in Hopen, Hres.
    subst c r. reflexivity.
Qed.

Lemma tunnel_close_acts_once_witness :
  snd (Tunnrl.run Tunnrl.initial (replicate 3 Tunnrl.CloseCalled))
  = [Tunnrl.WsClose; Tunnrl.EmitClose].
Proof.
  apply (proj1 (tunnel_close_acts_once Tunnrl.initial 2) eq_refl).
Defined.

(** X7. Registration is final.  A [registered] frame that reaches a
    pending construction call fulfils it, publishes exactly the [url] of
    the frame and clears the connect timer; whatever happens afterwards,
    the call stays fulfilled, and the published url changes only with
    another [registered] frame. *)
Theorem registration_is_final (msg : Frame.jsval) (u : string)
    (st : Tunnrl.state) :
  Frame.prop msg "type" = Some (Frame.JStr "registered") ->
  Frame.prop msg "url" = Some (Frame.JStr u) ->
  Tunnrl.result st = Js.Pending ->
  exists st',
    Tunnrl.step st (Tunnrl.Message (Some msg))
    = (st', [Tunnrl.ClearConnectTimeout])
    /\ Tunnrl.url st' = Frame.JStr u
    /\ Tunnrl.resolved st' = true
    /\ Tunnrl.result st' = Js.Fulfilled tt
    /\ (forall events,
          Tunnrl.result (fst (Tunnrl.run st' events)) = Js.Fulfilled tt
          /\ Tunnrl.resolved (fst (Tunnrl.run st' events)) = true)
    /\ (forall events,
          forallb (fun ev => negb (Runs.registers ev)) events = true ->
          Tunnrl.url (fst (Tunnrl.run st' events)) = Frame.JStr u).
Proof.
  intros Htype Hurl Hpending. cbn [Tunnrl.step]. unfold Tunnrl.on_message.
  rewrite Htype, Hurl. simpl. rewrite Hpending. simpl.
  eexists. split; [reflexivity|]. split; [reflexivity|].
  split; [reflexivity|]. split; [reflexivity|]. split.
  - intros events.
    destruct (registered_stays events
                {| Tunnrl.url := Frame.JStr u;
                   Tunnrl.closed_ := Tunnrl.closed_ st;
                   Tunnrl.resolved := true;
                   Tunnrl.result := Js.Fulfilled tt |} eq_refl eq_refl).
    by split.
  - intros events Hevents. by rewrite url_kept.
Qed.

Lemma registration_is_final_witness :
  let msg :=
    Frame.JObj [("type", Frame.JStr "registered");
                ("subdomain", Frame.JStr "abc123");
                ("url", Frame.JStr "https://abc123.example.dev")] in
  exists st',
    Tunnrl.step Tunnrl.initial (Tunnrl.Message (Some msg))
    = (st', [Tunnrl.ClearConnectTimeout])
    /\ Tunnrl.url st' = Frame.JStr "https://abc123.example.dev".
Proof.
  intros msg.
  destruct (registration_is_final msg "https://abc123.example.dev"
              Tunnrl.initial eq_refl eq_refl eq_refl)
    as (st' & Hstep & Hurl & _).
  exists st'. by split.
Defined.

Lemma quiet_until_registered_witness :
  Forall (fun e => Runs.notifies e = false)
    (snd (Tunnrl.run Tunnrl.initial
            [Tunnrl.Errored "ECONNREFUSED"; Tunnrl.Closed;
             Tunnrl.ConnectTimeout])).
Proof.
  apply (quiet_until_registered
           [Tunnrl.Errored "ECONNREFUSED"; Tunnrl.Closed; Tunnrl.ConnectTimeout]
           Tunnrl.initial eq_refl eq_refl).
Defined.

(** ** The event loop of [startTunnel] *)

Section ClientRuns.
Import StartTunnel.

Lemma exit_is_final (events : list event) (st : state) :
  exited st <> None -> run st events = (st, []).
Proof.
  intros Hex. induction events as [|ev events IH]; [done|].
  cbn [run]. unfold step. destruct (exited st) eqn:Hst; [|done].
  by rewrite IH.
Qed.

(** What one turn of the loop does to the sockets. *)
Lemma step_sockets (st : state) (ev : event) :
  Runs.newest st ->
  Runs.newest (fst (step st ev))
  /\ Runs.created (snd (step st ev))
     = seq (sockets st) (sockets (fst (step st ev)) - sockets st)
  /\ (sockets st <= sockets (fst (step st ev)))%nat
  /\ (sockets (fst (step st ev)) - sockets st
      <= match ev with ReconnectTimer => 1 | _ => 0 end)%nat.
Proof.
  intros Hnew. unfold step.
  destruct (exited st);
    [simpl; rewrite Nat.sub_diag; repeat split; try done; destruct ev; lia|].
  destruct ev as [|frame|request response rs|random| |rs| | |]; simpl.
  - rewrite Nat.sub_diag. by repeat split.
  - unfold on_message, shut_down, close_ws.
    repeat case_match; simplify_eq; simpl; rewrite ?Nat.sub_diag;
      repeat split; try done;
      unfold Runs.newest in *; simpl in *; congruence.
  - rewrite Nat.sub_diag. repeat split; try done. by repeat case_match.
  - unfold on_close, scheduleReconnect.
    destruct (shuttingDown st); simpl; rewrite Nat.sub_diag; by repeat split.
  - unfold on_error.
    destruct (shuttingDown st); simpl; rewrite Nat.sub_diag; by repeat split.
  - rewrite Nat.sub_diag. repeat split; try done. by repeat case_match.
  - unfold on_reconnect_timer, connect.
    destruct (shuttingDown st); simpl.
    + rewrite Nat.sub_diag. repeat split; try done. lia.
    + replace (S (sockets st) - sockets st)%nat with 1%nat by lia.
      repeat split; try done; lia.
  - unfold close_ws. rewrite Nat.sub_diag.
    repeat split; try done. by destruct (ws st).
  - unfold shut_down, close_ws. simpl. rewrite Nat.sub_diag.
    repeat split; try done. by destruct (ws st).
Qed.

Lemma created_app (effs1 effs2 : list effect) :
  Runs.created (effs1 ++ effs2) = Runs.created effs1 ++ Runs.created effs2.
Proof. apply omap_app. Qed.

Lemma run_sockets (events : list event) (st : state) :
  Runs.newest st ->
  Runs.newest (fst (run st events))
  /\ Runs.created (snd (run st events))
     = seq (sockets st) (sockets (fst (run st events)) - sockets st)
  /\ (sockets st <= sockets (fst (run st events)))%nat
  /\ (sockets (fst (run st events)) - sockets st
      <= Runs.timers_fired events)%nat.
Proof.
  revert st. induction events as [|ev events IH]; intros st Hnew.
  - simpl. rewrite Nat.sub_diag. by repeat split.
  - cbn [run].
    destruct (step_sockets st ev Hnew) as (Hnew' & Hcr & Hle & Hone).
    destruct (step st ev) as [st' effs]. cbn [fst snd] in *.
    destruct (IH st' Hnew') as (Hnew'' & Hcr' & Hle' & Hcount).
    destruct (run st' events) as [st'' effs']. cbn [fst snd] in *.
    split; [done|]. split; [|split; [lia|]].
    + rewrite created_app, Hcr, Hcr'.
      replace (sockets st'' - sockets st)%nat
        with ((sockets st' - sockets st) + (sockets st'' - sockets st'))%nat
        by lia.
      rewrite seq_app. do 2 f_equal. lia.
    + assert (Hfired :
        Runs.timers_fired (ev :: events)
        = (match ev with ReconnectTimer => 1 | _ => 0 end
           + Runs.timers_fired events)%nat) by (by destruct ev).
      rewrite Hfired. lia.
Qed.

(** What one turn of the loop does to the reconnect delay. *)
Lemma step_delay_bounds (st : state) (ev : event) :
  1000 <= reconnectDelay st <= 30000 ->
  Forall (fun r => 0 <= r /\ r < 1)%Q (Runs.randoms [ev]) ->
  1000 <= reconnectDelay (fst (step st ev)) <= 30000
  /\ Forall (fun d => 1000 <= d /\ d <= 30000)%Q (delays (snd (step st ev))).
Proof.
  intros Hrd Hrand. unfold step. destruct (exited st); [by split|].
  destruct ev as [|frame|request response rs|random| |rs| | |]; simpl.
  - split; [lia|constructor].
  - unfold on_message, shut_down, close_ws.
    repeat case_match; simplify_eq; simpl; split; try done; constructor.
  - split; [done|]. repeat case_match; constructor.
  - unfold on_close, scheduleReconnect.
    destruct (shuttingDown st); simpl; [by split|].
    split; [lia|]. constructor; [|constructor].
    apply Forall_inv in Hrand as [Hlo Hhi].
    assert (Hq : (1000 <= inject_Z (reconnectDelay st))%Q
                 /\ (inject_Z (reconnectDelay st) <= 30000)%Q).
    { change 1000%Q with (inject_Z 1000). change 30000%Q with (inject_Z 30000).
      rewrite <- !Zle_Qle. lia. }
    destruct (delay_jitter_bounds (reconnectDelay st) random
                ltac:(lia) Hlo Hhi) as (Hge & _ & Hmax).
    split; [lra|exact Hmax].
  - unfold on_error. destruct (shuttingDown st); simpl; by split.
  - split; [done|]. repeat case_match; constructor.
  - unfold on_reconnect_timer, connect.
    destruct (shuttingDown st); simpl; split; try done; constructor.
  - unfold close_ws. split; [done|]. destruct (ws st); constructor.
  - unfold shut_down, close_ws. simpl. split; [done|].
    destruct (ws st); constructor.
Qed.

Lemma randoms_cons (ev : event) (events : list event) :
  Runs.randoms (ev :: events) = Runs.randoms [ev] ++ Runs.randoms events.
Proof. apply (omap_app _ [ev] events). Qed.

(** X10. Every reconnect waits between one and thirty seconds.  From a
    state whose [reconnectDelay] lies in [1000, 30000] (the initial one
    does), and with [Math.random()] in [0, 1), every delay handed to
    [setTimeout] during a run lies in [1000, 30000], [reconnectDelay]
    stays in that range, and at most one timer is armed per close. *)
Theorem reconnect_delays_are_bounded (events : list event) (st : state) :
  1000 <= reconnectDelay st <= 30000 ->
  Forall (fun r => 0 <= r /\ r < 1)%Q (Runs.randoms events) ->
  1000 <= reconnectDelay (fst (run st events)) <= 30000
  /\ Forall (fun d => 1000 <= d /\ d <= 30000)%Q
       (delays (snd (run st events)))
  /\ (length (delays (snd (run st events)))
      <= length (Runs.randoms events))%nat.
Proof.
  revert st. induction events as [|ev events IH]; intros st Hrd Hrand.
  - simpl. split; [done|]. split; [constructor|done].
  - rewrite randoms_cons in Hrand. apply Forall_app in Hrand as [Hev Hrand].
    cbn [run].
    destruct (step_delay_bounds st ev Hrd Hev) as [Hrd' Hds].
    assert (Hlen : (length (delays (snd (step st ev)))
                    <= length (Runs.randoms [ev]))%nat).
    { unfold step. destruct (exited st); [simpl; lia|].
      destruct ev as [|frame|request response rs|random| |rs| | |]; simpl;
        try lia.
      - unfold on_message, shut_down, close_ws.
        repeat case_match; simplify_eq; simpl; lia.
      - repeat case_match; simpl; lia.
      - unfold on_close, scheduleReconnect.
        destruct (shuttingDown st); simpl; lia.
      - unfold on_error. destruct (shuttingDown st); simpl; lia.
      - repeat case_match; simpl; lia.
      - unfold on_reconnect_timer, connect.
        destruct (shuttingDown st); simpl; lia.
      - unfold close_ws. destruct (ws st); simpl; lia.
      - unfold shut_down, close_ws. destruct (ws st); simpl; lia. }
    destruct (step st ev) as [st' effs]. cbn [fst snd] in *.
    destruct (IH st' Hrd' Hrand) as (Hrd'' & Hds' & Hlen').
    destruct (run st' events) as [st'' effs']. cbn [fst snd] in *.
    split; [done|]. rewrite delays_app. split; [by apply Forall_app|].
    rewrite randoms_cons, !length_app. lia.
Qed.

(** What one turn of the loop does to the replay buffer. *)
Lemma step_recent (st : state) (ev : event) :
  exited st = None ->
  recentRequests (fst (step st ev))
  = fold_left ReplayBuffer.record (Runs.completed [ev]) (recentRequests st).
Proof.
  intros Hex. unfold step. rewrite Hex.
  destruct ev as [|frame|request response rs|random| |rs| | |]; simpl;
    try done.
  - unfold on_message, shut_down. repeat case_match; simplify_eq; done.
  - unfold on_close, scheduleReconnect. by destruct (shuttingDown st).
  - unfold on_error. by destruct (shuttingDown st).
  - unfold on_reconnect_timer, connect. by destruct (shuttingDown st).
Qed.

Lemma run_recent (events : list event) (st : state) :
  exited (fst (run st events)) = None ->
  recentRequests (fst (run st events))
  = fold_left ReplayBuffer.record (Runs.completed events) (recentRequests st).
Proof.
  revert st. induction events as [|ev events IH]; intros st Hend; [done|].
  destruct (exited st) eqn:Hex.
  { rewrite exit_is_final in Hend by congruence. simpl in Hend. congruence. }
  change (Runs.completed (ev :: events))
    with (Runs.completed ([ev] ++ events)).
  unfold Runs.completed at 1. rewrite omap_app, fold_left_app.
  fold (Runs.completed [ev]). fold (Runs.completed events).
  rewrite <- (step_recent st ev Hex).
  cbn [run] in *. destruct (step st ev) as [st' effs].
  specialize (IH st'). destruct (run st' events) as [st'' effs'].
  cbn [fst] in *. by apply IH.
Qed.

Lemma run_recent_bound (events : list event) (st : state) :
  (length (recentRequests st) <= 10)%nat ->
  (length (recentRequests (fst (run st events))) <= 10)%nat.
Proof.
  revert st. induction events as [|ev events IH]; intros st Hlen; [done|].
  cbn [run].
  assert (Hstep : (length (recentRequests (fst (step st ev))) <= 10)%nat).
  { destruct (exited st) eqn:Hex.
    - unfold step. by rewrite Hex.
    - rewrite step_recent by done.
      destruct ev; simpl; try done. by apply record_length. }
  destruct (step st ev) as [st' effs]. specialize (IH st' Hstep).
  by destruct (run st' events).
Qed.

End ClientRuns.

(** X9. One socket at a time.  Every [connect()] makes a socket of its
    own and the client then uses that one: after any run the current
    socket is the one created last, the sockets created are pairwise
    distinct, and no more sockets are created than reconnect timers
    fired. *)
Theorem sockets_are_fresh_and_current (events : list StartTunnel.event)
    (st : StartTunnel.state) :
  Runs.newest st ->
  let after := StartTunnel.run st events in
  Runs.newest (fst after)
  /\ Runs.created (snd after)
     = seq (StartTunnel.sockets st)
         (StartTunnel.sockets (fst after) - StartTunnel.sockets st)
  /\ NoDup (Runs.created (snd after))
  /\ (length (Runs.created (snd after)) <= Runs.timers_fired events)%nat.
Proof.
  intros Hnew after. subst after.
  destruct (run_sockets events st Hnew) as (Hnew' & Hcr & Hle & Hcount).
  split; [done|]. split; [done|]. rewrite Hcr.
  split; [apply NoDup_ListNoDup, List.seq_NoDup|]. by rewrite length_seq.
Qed.

Lemma sockets_are_fresh_and_current_witness :
  Runs.created
    (snd (StartTunnel.run (fst (StartTunnel.connect StartTunnel.initial))
            [StartTunnel.Opened; StartTunnel.Closed (1 # 2);
             StartTunnel.ReconnectTimer; StartTunnel.Closed 0;
             StartTunnel.ReconnectTimer]))
  = [1%nat; 2%nat].
Proof.
  destruct (sockets_are_fresh_and_current
              [StartTunnel.Opened; StartTunnel.Closed (1 # 2);
               StartTunnel.ReconnectTimer; StartTunnel.Closed 0;
               StartTunnel.ReconnectTimer]
              (fst (StartTunnel.connect StartTunnel.initial)) eq_refl)
    as (_ & Hcreated & _).
  rewrite Hcreated. vm_compute. reflexivity.
Defined.

Lemma reconnect_delays_are_bounded_witness :
  Forall (fun d => 1000 <= d /\ d <= 30000)%Q
    (StartTunnel.delays
       (snd (StartTunnel.run (fst (StartTunnel.connect StartTunnel.initial))
               [StartTunnel.Closed (3 # 4); StartTunnel.ReconnectTimer;
                StartTunnel.Closed (1 # 4)]))).
Proof.
  refine (proj1 (proj2 (reconnect_delays_are_bounded
                   [StartTunnel.Closed (3 # 4); StartTunnel.ReconnectTimer;
                    StartTunnel.Closed (1 # 4)]
                   (fst (StartTunnel.connect StartTunnel.initial)) _ _))).
  - simpl. lia.
  - repeat constructor; unfold Qle, Qlt; simpl; lia.
Defined.

(** X11. The replay buffer of a running client holds the last ten
    forwards that completed, in the order of their completion, whatever
    else happened in between and whether or not their responses could be
    sent; in any state the client reaches it holds at most ten. *)
Theorem client_keeps_last_ten_forwards (events : list StartTunnel.event)
    (st : StartTunnel.state) :
  let after := fst (StartTunnel.run st events) in
  ((length (StartTunnel.recentRequests st) <= 10)%nat ->
   (length (StartTunnel.recentRequests after) <= 10)%nat)
  /\ (StartTunnel.exited after = None ->
      StartTunnel.recentRequests after
      = fold_left ReplayBuffer.record (Runs.completed events)
          (StartTunnel.recentRequests st))
  /\ (StartTunnel.exited after = None ->
      StartTunnel.recentRequests st = [] ->
      StartTunnel.recentRequests after
      = drop (length (Runs.completed events) - 10) (Runs.completed events)).
Proof.
  intros after. subst after. split; [apply run_recent_bound|].
  split; [apply run_recent|].
  intros Hex Hempty. rewrite run_recent, Hempty by done.
  apply record_all_window.
Qed.

Lemma client_keeps_last_ten_forwards_witness :
  let request := mkRequest "r1" "GET" "/" ∅ EmptyString in
  let response := mkResponse "r1" 200 ∅ EmptyString in
  StartTunnel.recentRequests
    (fst (StartTunnel.run (fst (StartTunnel.connect StartTunnel.initial))
            [StartTunnel.Opened;
             StartTunnel.Forwarded request response (fun _ => CLOSED);
             StartTunnel.Closed (1 # 2)]))
  = [request].
Proof.
  intros request response.
  destruct (client_keeps_last_ten_forwards
              [StartTunnel.Opened;
               StartTunnel.Forwarded request response (fun _ => CLOSED);
               StartTunnel.Closed (1 # 2)]
              (fst (StartTunnel.connect StartTunnel.initial)))
    as (_ & _ & Hlast).
  rewrite Hlast; reflexivity.
Defined.

(** ** The keyboard shortcuts *)

Section KeyboardFacts.

Lemma last_drop {A} (l : list A) (n : nat) :
  (n < length l)%nat -> last (drop n l) = last l.
Proof.
  revert n. induction l as [|x l IH]; intros n Hn; [simpl in Hn; lia|].
  destruct n as [|n]; [done|]. simpl in Hn. cbn [drop].
  rewrite IH by lia. destruct l; [simpl in Hn; lia|done].
Qed.

(** The last entry of the buffer is the forward that completed last. *)
Lemma last_record_all (reqs : list ForwardedRequest) :
  last (ReplayBuffer.record_all reqs) = last reqs.
Proof.
  rewrite record_all_window. destruct reqs as [|r reqs]; [done|].
  apply last_drop. simpl. lia.
Qed.

Lemma is_key_cases (key lower upper : string) :
  Keyboard.is_key key lower upper = true -> key = lower \/ key = upper.
Proof.
  unfold Keyboard.is_key. intros Hkey. apply orb_true_iff in Hkey.
  destruct Hkey as [Hkey|Hkey]; apply String.eqb_eq in Hkey; auto.
Qed.

End KeyboardFacts.

(** X12. The replay key replays the forward that completed last, also
    after older entries were evicted: with an empty history it only
    prints; otherwise it forwards a copy of the latest request that has
    the fresh id and the same method, path, headers and body.  The
    response to the replay carries the fresh id and is only printed: the
    buffer and the socket are left alone. *)
Theorem replay_key_replays_latest (pf : Keyboard.platform)
    (st : StartTunnel.state) (reqs : list ForwardedRequest)
    (key uuid : string) :
  Keyboard.is_key key "r" "R" = true ->
  StartTunnel.recentRequests st = ReplayBuffer.record_all reqs ->
  match last reqs with
  | None =>
      Keyboard.on_key pf st key uuid
      = Keyboard.Done st [Keyboard.Core StartTunnel.Terminal]
  | Some latest =>
      let replayReq := Keyboard.replayable latest uuid in
      Keyboard.on_key pf st key uuid
      = Keyboard.AwaitReplay st [Keyboard.Core StartTunnel.Terminal] replayReq
      /\ req_requestId replayReq = uuid
      /\ req_method replayReq = req_method latest
      /\ req_path replayReq = req_path latest
      /\ req_headers replayReq = req_headers latest
      /\ req_body replayReq = req_body latest
      /\ (forall p localHost localPort events response,
            Forward.forwardToLocal p localHost localPort replayReq events
            = Js.Fulfilled response ->
            res_requestId response = uuid
            /\ Keyboard.on_replayed st replayReq response
               = (st, [Keyboard.Core StartTunnel.Terminal]))
  end.
Proof.
  intros Hkey Hrecent.
  assert (Hon :
    Keyboard.on_key pf st key uuid
    = match last reqs with
      | None => Keyboard.Done st [Keyboard.Core StartTunnel.Terminal]
      | Some latest =>
          Keyboard.AwaitReplay st [Keyboard.Core StartTunnel.Terminal]
            (Keyboard.replayable latest uuid)
      end).
  { rewrite <- last_record_all, <- Hrecent.
    destruct (is_key_cases _ _ _ Hkey) as [-> | ->]; reflexivity. }
  destruct (last reqs) as [latest|]; [|exact Hon].
  split; [exact Hon|]. repeat (split; [reflexivity|]).
  intros p localHost localPort events response Hres.
  split; [|reflexivity].
  pose proof (run_correlated p localHost localPort
                (Keyboard.replayable latest uuid) events
                (snd (Forward.start p localHost localPort
                        (Keyboard.replayable latest uuid))) I) as Hc.
  unfold Forward.correlated in Hc. unfold Forward.forwardToLocal in Hres.
  by rewrite Hres in Hc.
Qed.

Lemma replay_key_replays_latest_witness :
  let first := mkRequest "a" "GET" "/one" ∅ EmptyString in
  let second := mkRequest "b" "POST" "/two" ∅ "aGk=" in
  let st := fst (StartTunnel.on_forwarded
                   (fst (StartTunnel.on_forwarded StartTunnel.initial first
                           (mkResponse "a" 200 ∅ EmptyString) (fun _ => OPEN)))
                   second (mkResponse "b" 200 ∅ EmptyString) (fun _ => OPEN)) in
  Keyboard.on_key Keyboard.darwin st "r" "fresh"
  = Keyboard.AwaitReplay st [Keyboard.Core StartTunnel.Terminal]
      (mkRequest "fresh" "POST" "/two" ∅ "aGk=").
Proof.
  intros first second st.
  apply (replay_key_replays_latest Keyboard.darwin st [first; second]
           "r" "fresh" eq_refl eq_refl).
Defined.

(** X13. Before the url of the tunnel is known no key runs a shell
    command: the open and copy keys only print.  A key that is none of
    the shortcuts does nothing at all, and no key other than a quit key
    changes the state of the client. *)
Theorem keys_run_no_command_without_url (pf : Keyboard.platform)
    (st : StartTunnel.state) (key uuid : string) :
  let out := Keyboard.on_key pf st key uuid in
  (Keyboard.truthy (StartTunnel.tunnelUrl st) = false ->
   Keyboard.commands (Keyboard.effects_of out) = [])
  /\ (Keyboard.truthy (StartTunnel.tunnelUrl st) = false ->
      Keyboard.is_key key "o" "O" || Keyboard.is_key key "c" "C" = true ->
      out = Keyboard.Done st [Keyboard.Core StartTunnel.Terminal])
  /\ (String.eqb key (String "003"%char EmptyString)
      || Keyboard.is_key key "q" "Q" || Keyboard.is_key key "o" "O"
      || Keyboard.is_key key "c" "C" || Keyboard.is_key key "r" "R" = false ->
      out = Keyboard.Done st [])
  /\ (String.eqb key (String "003"%char EmptyString)
      || Keyboard.is_key key "q" "Q" = false ->
      Keyboard.state_of out = st).
Proof.
  intros out. subst out. unfold Keyboard.on_key.
  destruct (String.eqb key (String "003"%char EmptyString)
            || Keyboard.is_key key "q" "Q") eqn:Hquit.
  { split; [|split; [|split]].
    - intros _. unfold StartTunnel.shut_down, StartTunnel.close_ws. simpl.
      by destruct (StartTunnel.ws st).
    - intros _ Hoc. exfalso.
      apply orb_true_iff in Hquit as [Hq|Hq];
        [apply String.eqb_eq in Hq|
         apply is_key_cases in Hq as [Hq|Hq]];
        subst key; discriminate Hoc.
    - intros Hnone. by rewrite !orb_true_l in Hnone || simpl in Hnone.
    - discriminate. }
  simpl.
  destruct (Keyboard.is_key key "o" "O") eqn:Ho.
  { destruct (Keyboard.truthy (StartTunnel.tunnelUrl st)); simpl;
      repeat split; try done. }
  destruct (Keyboard.is_key key "c" "C") eqn:Hc.
  { destruct (Keyboard.truthy (StartTunnel.tunnelUrl st)); simpl;
      repeat split; try done. }
  destruct (Keyboard.is_key key "r" "R") eqn:Hr.
  { destruct (last (StartTunnel.recentRequests st)); simpl;
      repeat split; try done. }
  repeat split; done.
Qed.

Lemma keys_run_no_command_without_url_witness :
  Keyboard.on_key Keyboard.win32 StartTunnel.initial "o" "id"
  = Keyboard.Done StartTunnel.initial [Keyboard.Core StartTunnel.Terminal].
Proof.
  apply (proj1 (proj2 (keys_run_no_command_without_url Keyboard.win32
                         StartTunnel.initial "o" "id")) eq_refl eq_refl).
Defined.

(** ** The command line entry *)

Section PortArgument.
Import CommandLine.

Lemma digit_of_char (x : N) :
  (x < 10)%N -> digit_value (pretty_N_char x) = Some (Z.of_N x).
Proof.
  intros Hx.
  assert (x = 0 \/ x = 1 \/ x = 2 \/ x = 3 \/ x = 4 \/ x = 5 \/ x = 6
          \/ x = 7 \/ x = 8 \/ x = 9)%N as Hcases by lia.
  repeat (destruct Hcases as [->|Hcases]; [reflexivity|]). by subst.
Qed.

(** Reading the digits [pretty] wrote for a positive number gives the
    number back, whatever follows them. *)
Lemma digits_pretty_go (x : N) :
  (0 < x)%N ->
  forall s seen,
    digits seen 0 (pretty_N_go x s) = digits true (Z.of_N x) s.
Proof.
  induction (N.lt_wf_0 x) as [x _ IH]. intros Hx s seen.
  rewrite pretty_N_go_step by done.
  assert (Hmod : (x `mod` 10 < 10)%N) by (apply N.mod_lt; lia).
  assert (Hdm : Z.of_N x
                = 10 * Z.of_N (x `div` 10) + Z.of_N (x `mod` 10)).
  { rewrite (N.div_mod x 10) at 1 by lia. lia. }
  destruct (decide (x `div` 10 = 0)%N) as [Hzero|Hpos].
  - rewrite Hzero, pretty_N_go_0. cbn [digits].
    rewrite digit_of_char by done. rewrite Hdm, Hzero. reflexivity.
  - rewrite IH by (try apply N.div_lt; lia). cbn [digits].
    rewrite digit_of_char by done. by rewrite Hdm.
Qed.

Lemma pretty_go_head (x : N) :
  (0 < x)%N ->
  forall s, exists c rest d,
    pretty_N_go x s = String c rest /\ digit_value c = Some d.
Proof.
  induction (N.lt_wf_0 x) as [x _ IH]. intros Hx s.
  rewrite pretty_N_go_step by done.
  destruct (decide (x `div` 10 = 0)%N) as [Hzero|Hpos].
  - rewrite Hzero, pretty_N_go_0. eexists _, _, _. split; [done|].
    apply digit_of_char, N.mod_lt. lia.
  - assert (x `div` 10 < x)%N by (apply N.div_lt; lia).
    assert (0 < x `div` 10)%N by (by apply N.neq_0_lt_0).
    by apply IH.
Qed.

Lemma pretty_go_app (x : N) (s t : string) :
  String.append (pretty_N_go x s) t = pretty_N_go x (String.append s t).
Proof.
  revert s. induction (N.lt_wf_0 x) as [x _ IH]. intros s.
  destruct (decide (x = 0)%N) as [Hx|Hx]; [by subst|].
  assert (Hpos : (0 < x)%N) by (by apply N.neq_0_lt_0).
  assert (Hlt : (x `div` 10 < x)%N) by (by apply N.div_lt).
  rewrite (pretty_N_go_step x s), (pretty_N_go_step x (String.append s t))
    by done.
  by rewrite (IH _ Hlt), append_cons.
Qed.

Lemma digit_is_no_space_or_sign (c : ascii) (d : Z) :
  digit_value c = Some d ->
  is_space c = false /\ c <> "-"%char /\ c <> "+"%char.
Proof.
  intros Hd.
  destruct c as [[] [] [] [] [] [] [] []]; vm_compute in Hd;
    try discriminate Hd; (split; [reflexivity|split; discriminate]).
Qed.

Lemma digits_stop (v : Z) (s : string) :
  stops s = true -> digits true v s = Some v.
Proof.
  destruct s as [|c s]; [done|]. cbn [stops digits].
  by destruct (digit_value c).
Qed.

(** [parseInt] of a positive decimal followed by something that is no
    digit. *)
Lemma parseInt10_pretty (n : Z) (rest : string) :
  0 < n -> stops rest = true ->
  parseInt10 (String.append (pretty n) rest) = Some n
  /\ String.append (pretty n) rest <> EmptyString.
Proof.
  intros Hn Hrest. destruct n as [|x|x]; [lia| |lia].
  unfold pretty, pretty_Z, pretty, pretty_positive, pretty, pretty_N.
  destruct (decide (N.pos x = 0)%N) as [|_]; [lia|].
  rewrite pretty_go_app. change (String.append EmptyString rest) with rest.
  destruct (pretty_go_head (N.pos x) eq_refl rest) as (c & tail & d & Heq & Hd).
  split; [|by rewrite Heq].
  destruct (digit_is_no_space_or_sign c d Hd) as (Hsp & Hminus & Hplus).
  unfold parseInt10.
  assert (Hskip : skip_spaces (pretty_N_go (N.pos x) rest)
                  = pretty_N_go (N.pos x) rest).
  { rewrite Heq. cbn [skip_spaces]. by rewrite Hsp. }
  rewrite Hskip.
  assert (Hdigits : digits false 0 (pretty_N_go (N.pos x) rest)
                    = Some (Z.pos x)).
  { rewrite digits_pretty_go by done. by apply digits_stop. }
  rewrite Heq in *.
  destruct c as [[] [] [] [] [] [] [] []]; try exact Hdigits;
    by (exfalso; (apply Hminus || apply Hplus)).
Qed.

End PortArgument.

(** X14. The port argument.  Whatever is passed, [startTunnel] is only
    called with a port between 1 and 65535 and with the host option as
    given.  A port in that range written in decimal is accepted as
    itself, from the argument or from [PORT], also when something that is
    no digit follows it; an argument that is present hides [PORT]; an
    empty or missing port ends the process with status 1. *)
Theorem port_argument_is_validated (portArg envPort : option string)
    (host : string) :
  (forall port host',
     CommandLine.action portArg envPort host
     = CommandLine.StartTunnel_ port host' ->
     1 <= port <= 65535 /\ host' = host)
  /\ (forall n rest,
        1 <= n <= 65535 -> CommandLine.stops rest = true ->
        CommandLine.action (Some (String.append (pretty n) rest)) envPort host
        = CommandLine.StartTunnel_ n host
        /\ CommandLine.action None (Some (String.append (pretty n) rest)) host
           = CommandLine.StartTunnel_ n host)
  /\ (forall arg,
        CommandLine.action (Some arg) envPort host
        = CommandLine.action (Some arg) None host)
  /\ CommandLine.action (Some EmptyString) envPort host = CommandLine.Exit 1
  /\ CommandLine.action None None host = CommandLine.Exit 1.
Proof.
  split; [|split; [|split; [|split]]]; try reflexivity.
  - intros port host'. unfold CommandLine.action.
    destruct (match portArg with Some a => Some a | None => envPort end)
      as [[|c raw]|]; try discriminate.
    destruct (CommandLine.parseInt10 (String c raw)) as [v|]; [|discriminate].
    destruct ((v <? 1) || (65535 <? v)) eqn:Hrange; [discriminate|].
    intros [= <- <-]. apply orb_false_iff in Hrange as [Hlo Hhi].
    apply Z.ltb_ge in Hlo, Hhi. split; [lia|done].
  - intros n rest Hn Hrest.
    destruct (parseInt10_pretty n rest) as [Hparse Hne]; [lia|done|].
    assert (Hrange : (n <? 1) || (65535 <? n) = false).
    { apply orb_false_iff. split; apply Z.ltb_ge; lia. }
    unfold CommandLine.action.
    destruct (String.append (pretty n) rest) as [|c raw] eqn:Hraw; [done|].
    by rewrite Hparse, Hrange.
Qed.

Lemma port_argument_is_validated_witness :
  CommandLine.action (Some "3000") (Some "8080") "localhost"
  = CommandLine.StartTunnel_ 3000 "localhost".
Proof.
  apply (proj1 (proj2 (port_argument_is_validated
                         (Some "3000") (Some "8080") "localhost"))
           3000 EmptyString); [lia|reflexivity].
Defined.

(** ** Terminal rendering *)

Section DisplayFacts.
Import Display.

Lemma upper_of_lower (c : ascii) :
  upper_ascii (Js.lower_ascii c) = upper_ascii c.
Proof. destruct c as [[] [] [] [] [] [] [] []]; reflexivity. Qed.

Lemma upper_of_upper (c : ascii) :
  upper_ascii (upper_ascii c) = upper_ascii c.
Proof. destruct c as [[] [] [] [] [] [] [] []]; reflexivity. Qed.

Lemma toUpperCase_toLowerCase (s : string) :
  toUpperCase (Js.toLowerCase s) = toUpperCase s.
Proof.
  induction s as [|c s IH]; [done|]. cbn [Js.toLowerCase toUpperCase].
  by rewrite upper_of_lower, IH.
Qed.

Lemma toUpperCase_idem (s : string) :
  toUpperCase (toUpperCase s) = toUpperCase s.
Proof.
  induction s as [|c s IH]; [done|]. cbn [toUpperCase].
  by rewrite upper_of_upper, IH.
Qed.

Lemma toUpperCase_length (s : string) :
  String.length (toUpperCase s) = String.length s.
Proof. induction s as [|c s IH]; [done|]. cbn [toUpperCase String.length]. by rewrite IH. Qed.

Lemma append_length (a b : string) :
  String.length (String.append a b)
  = (String.length a + String.length b)%nat.
Proof.
  induction a as [|c a IH]; [done|]. rewrite append_cons.
  cbn [String.length]. by rewrite IH.
Qed.

Lemma spaces_length (n : nat) : String.length (spaces n) = n.
Proof. induction n as [|n IH]; [done|]. cbn [spaces String.length]. by rewrite IH. Qed.

Lemma methodColor_text (method : string) :
  snd (methodColor method) = padEnd (toUpperCase method) 6.
Proof. unfold methodColor. by repeat case_match. Qed.

End DisplayFacts.

(** X15. [formatBytes] picks the unit by size and rounds to the nearest
    tenth: below 1024 it prints the count and [B]; from 1024 up to
    1048575 it prints tenths of KB, and from 1048576 on tenths of MB,
    the printed value being off by at most a twentieth of the unit
    (so the KB range prints 1.0 up to, for the last bytes below 1 MB,
    1024.0). *)
Theorem formatBytes_rounds_to_tenths (bytes : Z) :
  0 <= bytes ->
  (bytes < 1024 ->
   Display.formatBytes bytes = String.append (pretty bytes) " B")
  /\ (1024 <= bytes < 1048576 ->
      exists n,
        Display.formatBytes bytes
        = String.append
            (String.append (pretty (n / 10)) (String "." (pretty (n mod 10))))
            " KB"
        /\ 10 <= n <= 10240
        /\ -512 <= 10 * bytes - 1024 * n < 512)
  /\ (1048576 <= bytes ->
      exists n,
        Display.formatBytes bytes
        = String.append
            (String.append (pretty (n / 10)) (String "." (pretty (n mod 10))))
            " MB"
        /\ 10 <= n
        /\ -524288 <= 10 * bytes - 1048576 * n < 524288).
Proof.
  intros Hpos. unfold Display.formatBytes, Display.toFixed1, Display.tenths.
  split; [|split].
  - intros Hsmall. destruct (Z.eqb_spec bytes 0) as [->|Hne]; [done|].
    destruct (Z.ltb_spec bytes 1024); [done|lia].
  - intros [Hlo Hhi]. destruct (Z.eqb_spec bytes 0); [lia|].
    destruct (Z.ltb_spec bytes 1024); [lia|].
    destruct (Z.ltb_spec bytes 1048576); [|lia].
    exists ((20 * bytes + 1024) / (2 * 1024)). split; [reflexivity|].
    change (2 * 1024) with 2048. split; Z.div_mod_to_equations; lia.
  - intros Hbig. destruct (Z.eqb_spec bytes 0); [lia|].
    destruct (Z.ltb_spec bytes 1024); [lia|].
    destruct (Z.ltb_spec bytes 1048576); [lia|].
    exists ((20 * bytes + 1048576) / (2 * 1048576)). split; [reflexivity|].
    change (2 * 1048576) with 2097152. split; Z.div_mod_to_equations; lia.
Qed.

Lemma formatBytes_rounds_to_tenths_witness :
  Display.formatBytes 1536 = "1.5 KB"
  /\ Display.formatBytes 1048575 = "1024.0 KB"
  /\ Display.formatBytes 512 = "512 B".
Proof.
  destruct (formatBytes_rounds_to_tenths 512) as (Hb & _ & _); [lia|].
  destruct (formatBytes_rounds_to_tenths 1536) as (_ & Hkb & _); [lia|].
  destruct Hkb as (n & Hkb & _); [lia|].
  split; [|split].
  - vm_compute. reflexivity.
  - vm_compute. reflexivity.
  - rewrite Hb by lia. vm_compute. reflexivity.
Defined.

(** X16. [methodColor] looks at the method in upper case only: the text
    is the upper-cased method padded with blanks to six columns (longer
    methods are not cut), and neither the style nor the text depends on
    the letter case of the method. *)
Theorem methodColor_pads_and_ignores_case (method : string) :
  snd (Display.methodColor method)
  = String.append (Display.toUpperCase method)
      (Display.spaces (6 - String.length method))
  /\ String.length (snd (Display.methodColor method))
     = Nat.max 6 (String.length method)
  /\ Display.methodColor (Js.toLowerCase method) = Display.methodColor method
  /\ Display.methodColor (Display.toUpperCase method)
     = Display.methodColor method.
Proof.
  assert (Htext :
    snd (Display.methodColor method)
    = String.append (Display.toUpperCase method)
        (Display.spaces (6 - String.length method))).
  { rewrite methodColor_text. unfold Display.padEnd.
    by rewrite toUpperCase_length. }
  split; [exact Htext|]. split; [|split].
  - rewrite Htext, append_length, toUpperCase_length, spaces_length. lia.
  - unfold Display.methodColor. by rewrite toUpperCase_toLowerCase.
  - unfold Display.methodColor. by rewrite toUpperCase_idem.
Qed.
